(** * AyuSahayak front end: the AI image-analysis wizard, the AI summary
      viewer and the wound-care page, as asynchronous state machines.

    The three React components of the repository are event handlers and
    [async] functions over component-local state.  They are embedded as
    processes over an explicit store: a state setter or an [alert] is a
    synchronous effect, an [await] suspends the process until the
    environment settles the awaited promise, and [try]/[catch]/[finally] are
    combinators on processes. *)

From Stdlib Require Import List String Ascii Bool Arith NArith ZArith Lia.
Import ListNotations.
Open Scope string_scope.

(* ================================================================== *)
(** * Asynchronous processes *)
(* ================================================================== *)

Module Async.

(** What a rejected promise or a thrown exception carries.  The handlers
    only ever look at [err.response?.status]. *)
Inductive error : Type :=
| NetworkError                 (* no response was received *)
| HttpError (status : nat)     (* axios: a response outside 2xx *)
| TypeError.                   (* property access on null/undefined, ... *)

(** [err.response?.status] *)
Definition response_status (err : error) : option nat :=
  match err with
  | HttpError n => Some n
  | NetworkError | TypeError => None
  end.

(** [err.response?.status === n] *)
Definition status_is (err : error) (n : nat) : bool :=
  match response_status err with
  | Some k => Nat.eqb k n
  | None => false
  end.

Inductive settled (R : Type) : Type :=
| Fulfilled (r : R)
| Rejected (err : error).
Arguments Fulfilled {R} r.
Arguments Rejected {R} err.

Inductive outcome : Type :=
| Normal
| Thrown (err : error)
| Suspended.

Section Proc.
(** [A]: the synchronous effects (state setters, [alert], ...);
    [E R]: the operations that can be awaited, with result type [R]. *)
Variable A : Type.
Variable E : Type -> Type.

Inductive proc : Type :=
| Ret                                        (* normal completion *)
| Throw (err : error)                        (* an exception propagates *)
| Do (a : A) (k : proc)                      (* a synchronous effect *)
| Call (callee : proc) (k : proc)            (* async call, not awaited *)
| Await (R : Type) (e : E R) (k : settled R -> proc).

(** [const x = await e; k x]: a rejection is thrown at the await. *)
Definition await {R : Type} (e : E R) (k : R -> proc) : proc :=
  Await R e (fun s => match s with
                      | Fulfilled r => k r
                      | Rejected err => Throw err
                      end).

(** [p; q] *)
Fixpoint seq (p q : proc) : proc :=
  match p with
  | Ret => q
  | Throw err => Throw err
  | Do a k => Do a (seq k q)
  | Call c k => Call c (seq k q)
  | Await R e k => Await R e (fun s => seq (k s) q)
  end.

(** [try { body } catch (err) { handler err }] *)
Fixpoint try_catch (body : proc) (handler : error -> proc) : proc :=
  match body with
  | Ret => Ret
  | Throw err => handler err
  | Do a k => Do a (try_catch k handler)
  | Call c k => Call c (try_catch k handler)
  | Await R e k => Await R e (fun s => try_catch (k s) handler)
  end.

(** [try { body } finally { fin }]: [fin] runs on both exits, and an
    exception of [body] propagates after it. *)
Fixpoint finally (body fin : proc) : proc :=
  match body with
  | Ret => fin
  | Throw err => seq fin (Throw err)
  | Do a k => Do a (finally k fin)
  | Call c k => Call c (finally k fin)
  | Await R e k => Await R e (fun s => finally (k s) fin)
  end.

(** [try { body } catch (err) { handler err } finally { fin }] *)
Definition try_catch_finally (body : proc) (handler : error -> proc)
           (fin : proc) : proc :=
  finally (try_catch body handler) fin.

(** A process that never awaits. *)
Fixpoint quiet (p : proc) : bool :=
  match p with
  | Ret | Throw _ => true
  | Do _ k => quiet k
  | Call c k => quiet c && quiet k
  | Await _ _ _ => false
  end.

(** A block of synchronous effects that completes normally. *)
Fixpoint straight (p : proc) : bool :=
  match p with
  | Ret => true
  | Do _ k => straight k
  | Throw _ | Call _ _ | Await _ _ _ => false
  end.

(** How [p] itself ends when its awaits settle the way [envs] says, one
    oracle per await: [Suspended] when [envs] is used up at an await. *)
Fixpoint result (p : proc) (envs : list (forall R : Type, E R -> settled R))
  : outcome :=
  match p with
  | Ret => Normal
  | Throw err => Thrown err
  | Do _ k => result k envs
  | Call _ k => result k envs
  | Await R e k =>
      match envs with
      | [] => Suspended
      | env :: rest => result (k (env R e)) rest
      end
  end.

(** ** The store and the scheduler *)

Inductive entry : Type :=
| Did (a : A)                         (* a synchronous effect happened *)
| Sent (R : Type) (e : E R)           (* an awaited operation was started *)
| Unhandled (err : error).            (* a rejection nobody awaited *)

Inductive pend : Type :=
| Pend (R : Type) (e : E R) (k : settled R -> proc).

Variable St : Type.
Variable apply : A -> St -> St.

Record machine : Type := Machine {
  st : St;                 (* the component state *)
  log : list entry;        (* everything that happened, oldest first *)
  pending : list pend      (* the operations in flight *)
}.

Definition did (a : A) (m : machine) : machine :=
  {| st := apply a (st m); log := log m ++ [Did a]; pending := pending m |}.

Definition sent {R : Type} (e : E R) (m : machine) : machine :=
  {| st := st m; log := log m ++ [Sent R e]; pending := pending m |}.

Definition park {R : Type} (e : E R) (k : settled R -> proc)
           (m : machine) : machine :=
  {| st := st m; log := log m; pending := pending m ++ [Pend R e k] |}.

Definition unhandled (o : outcome) (m : machine) : machine :=
  match o with
  | Thrown err =>
      {| st := st m; log := log m ++ [Unhandled err]; pending := pending m |}
  | Normal | Suspended => m
  end.

(** The environment: how each awaited operation settles. *)
Definition oracle : Type := forall R : Type, E R -> settled R.

(** The effects of a straight block. *)
Fixpoint do_all (p : proc) (m : machine) : machine :=
  match p with
  | Do a k => do_all k (did a m)
  | _ => m
  end.

(** [run p envs m] runs [p] on [m].  Each await of [p] itself is settled
    by the next oracle of [envs]; when [envs] is used up the process is
    parked in [pending] at its await.  A callee that is not awaited runs
    up to its own first await and is parked there; an exception it does
    not catch rejects a promise that nobody looks at. *)
Fixpoint run (p : proc) (envs : list oracle) (m : machine)
  : outcome * machine :=
  match p with
  | Ret => (Normal, m)
  | Throw err => (Thrown err, m)
  | Do a k => run k envs (did a m)
  | Call c k =>
      let (o, m') := run c [] m in
      run k envs (unhandled o m')
  | Await R e k =>
      match envs with
      | [] => (Suspended, park e k (sent e m))
      | env :: rest => run (k (env R e)) rest (sent e m)
      end
  end.

(** An event handler (or a resumed continuation) runs up to its first
    await; an exception that escapes it is reported and dropped. *)
Definition fire (p : proc) (m : machine) : machine :=
  let (o, m') := run p [] m in unhandled o m'.

Fixpoint remove_nth {X : Type} (i : nat) (l : list X) : list X :=
  match i, l with
  | _, [] => []
  | 0, _ :: t => t
  | S i', x :: t => x :: remove_nth i' t
  end.

(** The [i]-th operation in flight settles the way [env] says. *)
Definition settle (i : nat) (env : oracle) (m : machine) : option machine :=
  match nth_error (pending m) i with
  | Some (Pend R e k) =>
      Some (fire (k (env R e))
                 {| st := st m; log := log m;
                    pending := remove_nth i (pending m) |})
  | None => None
  end.

(** ** Guarantees *)

(** [guarantees G p post s]: when [p] runs from the state [s], [post] holds
    of the state in which it ends or first suspends; and whenever [p], or a
    callee of [p], is resumed after an await in some state [s'], the state
    [s''] in which that run ends or suspends again satisfies [G s' s'']. *)
Fixpoint guarantees (G : St -> St -> Prop) (p : proc) (post : St -> Prop)
         (s : St) : Prop :=
  match p with
  | Ret | Throw _ => post s
  | Do a k => guarantees G k post (apply a s)
  | Call c k => guarantees G c (fun s' => guarantees G k post s') s
  | Await R e k =>
      post s /\ forall r s', guarantees G (k r) (G s') s'
  end.

(** Every operation in flight resumes into a run that meets [G]. *)
Definition resumes_within (G : St -> St -> Prop) (m : machine) : Prop :=
  Forall (fun pd =>
            match pd with
            | Pend R e k => forall r s', guarantees G (k r) (G s') s'
            end)
         (pending m).

End Proc.

Arguments Ret {A E}.
Arguments Throw {A E} err.
Arguments Do {A E} a k.
Arguments Call {A E} callee k.
Arguments Await {A E} R e k.
Arguments await {A E R} e k.
Arguments seq {A E} p q.
Arguments try_catch {A E} body handler.
Arguments finally {A E} body fin.
Arguments try_catch_finally {A E} body handler fin.
Arguments quiet {A E} p.
Arguments straight {A E} p.
Arguments result {A E} p envs.
Arguments do_all {A E St} apply p m.
Arguments oracle E : clear implicits.
Arguments Did {A E} a.
Arguments Sent {A E} R e.
Arguments Unhandled {A E} err.
Arguments Pend {A E} R e k.
Arguments Machine {A E St} st log pending.
Arguments st {A E St} m.
Arguments log {A E St} m.
Arguments pending {A E St} m.
Arguments did {A E St} apply a m.
Arguments sent {A E St R} e m.
Arguments park {A E St R} e k m.
Arguments unhandled {A E St} o m.
Arguments run {A E St} apply p envs m.
Arguments fire {A E St} apply p m.
Arguments settle {A E St} apply i env m.
Arguments remove_nth {X} i l.
Arguments guarantees {A E St} apply G p post s.
Arguments resumes_within {A E St} apply G m.

End Async.

(* ================================================================== *)
(** * AIImageAnalysis: the two-stage analysis wizard *)
(* ================================================================== *)

Module AIImageAnalysis.
Import Async.

(** The body of [fetch]'s response and the blob read from it are only
    passed on. *)
Inductive Response : Type := HttpResponse (body : string).
Inductive Blob : Type := BlobOf (bytes : string).

(** [new FormData()] after [append(name, blob, filename)] calls. *)
Definition FormData : Type := list (string * Blob * string).

(** Props: [{ conditionType, imageUrl, patientRef }]. *)
Record props : Type := Props {
  conditionType : string;
  imageUrl : string;
  patientRef : string
}.

(** JS truthiness of a value that is a string or [undefined]/[null]. *)
Definition truthy (v : option string) : bool :=
  match v with
  | Some s => negb (s =? "")
  | None => false
  end.

(** [v || d] on such a value. *)
Definition or_else (v : option string) (d : string) : string :=
  match v with
  | Some s => if s =? "" then d else s
  | None => d
  end.

(** [a[i]] on an array with holes: [undefined] out of range and at a hole. *)
Definition array_get {X : Type} (a : list (option X)) (i : nat) : option X :=
  match nth_error a i with
  | Some v => v
  | None => None
  end.

(** [a[i] = v] on a copy of the array: an index past the end extends the
    array, and the entries skipped are holes. *)
Fixpoint array_set {X : Type} (a : list (option X)) (i : nat) (v : X)
  : list (option X) :=
  match i, a with
  | 0, [] => [Some v]
  | 0, _ :: t => Some v :: t
  | S i', [] => None :: array_set [] i' v
  | S i', x :: t => x :: array_set t i' v
  end.

(** [l.map((x, i) => f i x)], counting from [i]. *)
Fixpoint mapi_from {X Y : Type} (f : nat -> X -> Y) (i : nat) (l : list X)
  : list Y :=
  match l with
  | [] => []
  | x :: t => f i x :: mapi_from f (S i) t
  end.

Section Component.

(** A JSON number is an IEEE double.  The component copies numbers and
    formats them, nothing else, so their type is left open. *)
Variable num : Type.

(** [(x * 100).toFixed(2)], where [x] is [undefined] ([None]) when the
    index has no entry; it throws on no input. *)
Variable percent : option num -> string.

(** [res.data] of the stage-1 call: an object with the keys the endpoint
    documents, any of which may be missing ([None]); a body that is not an
    object reads as one with every key missing. *)
Record stage1_data : Type := Stage1 {
  top3_classes : option (list string);
  top3_probs : option (list num);
  rag_summary : option string;
  questions : option (list string)
}.

(** [res.data] of the stage-2 call. *)
Record stage2_data : Type := Stage2 {
  final_report : option string
}.

(** The six [useState] cells. *)
Record state : Type := State {
  stage : string;
  loading : bool;
  stage1Result : option stage1_data;
  answers : list (option string);
  currentQ : nat;
  finalReport : option string
}.

Definition initial : state :=
  {| stage := "idle"; loading := false; stage1Result := None;
     answers := []; currentQ := 0; finalReport := None |}.

(** The object literal [payload] of [handleSubmitAnswers]. *)
Record stage2_payload : Type := Payload {
  payload_top3_classes : option (list string);
  payload_top3_probs : option (list num);
  payload_rag_summary : option string;
  payload_questions : option (list string);
  payload_answers : list (option string);
  patient_ref : string;
  image_url : string
}.

Record prediction : Type := Prediction {
  name : string;
  confidence : string
}.

(** The object literal [aiResult]. *)
Record ai_result : Type := AiResult {
  topPredictions : list prediction;
  aiFinalReport : option string;
  ragSummary : option string;
  patientAnswers : list (option string)
}.

(** [{ patient_ref: patientRef, [dataKey]: aiResult }] *)
Record save_body : Type := SaveBody {
  save_patient_ref : string;
  save_key : string;
  save_result : ai_result
}.

(** What the component awaits.  An axios call stands for the [data] of its
    response. *)
Inductive request : Type -> Type :=
| fetch (url : string) : request Response
| blob (r : Response) : request Blob
| axios_post_form (url : string) (formData : FormData) : request stage1_data
| axios_post_json (url : string) (payload : stage2_payload)
  : request stage2_data
| http_post (url : string) (body : save_body) : request unit.

Inductive action : Type :=
| setStage (s : string)
| setLoading (b : bool)
| setStage1Result (d : stage1_data)
| setAnswers (a : list (option string))
| setCurrentQ (n : nat)
| setFinalReport (r : string)
| alert (msg : string).

Definition apply (a : action) (s : state) : state :=
  match a with
  | setStage v =>
      {| stage := v; loading := loading s; stage1Result := stage1Result s;
         answers := answers s; currentQ := currentQ s;
         finalReport := finalReport s |}
  | setLoading v =>
      {| stage := stage s; loading := v; stage1Result := stage1Result s;
         answers := answers s; currentQ := currentQ s;
         finalReport := finalReport s |}
  | setStage1Result v =>
      {| stage := stage s; loading := loading s; stage1Result := Some v;
         answers := answers s; currentQ := currentQ s;
         finalReport := finalReport s |}
  | setAnswers v =>
      {| stage := stage s; loading := loading s;
         stage1Result := stage1Result s;
         answers := v; currentQ := currentQ s;
         finalReport := finalReport s |}
  | setCurrentQ v =>
      {| stage := stage s; loading := loading s;
         stage1Result := stage1Result s;
         answers := answers s; currentQ := v;
         finalReport := finalReport s |}
  | setFinalReport v =>
      {| stage := stage s; loading := loading s;
         stage1Result := stage1Result s;
         answers := answers s; currentQ := currentQ s;
         finalReport := Some v |}
  | alert _ => s
  end.

Definition process : Type := proc action request.
Definition world : Type := machine action request state.

(** [`http://localhost:5001/api/${conditionType}_stage1`] and [..._stage2] *)
Definition stage1_url (p : props) : string :=
  "http://localhost:5001/api/" ++ conditionType p ++ "_stage1".
Definition stage2_url (p : props) : string :=
  "http://localhost:5001/api/" ++ conditionType p ++ "_stage2".

Definition saveUrl (p : props) : string :=
  if conditionType p =? "wound"
  then "/patients/ai/save-woundcare"
  else "/patients/ai/save-skincare".

Definition dataKey (p : props) : string :=
  if conditionType p =? "wound" then "wound_result" else "skin_result".

(** [stage1Result.top3_classes.map((cls, i) => ({ name: cls, confidence:
    (stage1Result.top3_probs[i] * 100).toFixed(2) }))].  [None]: a
    TypeError, from [.map] of [undefined] or from indexing [undefined] in
    the first callback. *)
Definition top_predictions (r : stage1_data) : option (list prediction) :=
  match top3_classes r with
  | None => None
  | Some [] => Some []
  | Some (c :: cs) =>
      match top3_probs r with
      | None => None
      | Some ps =>
          Some (mapi_from
                  (fun i cls =>
                     {| name := cls; confidence := percent (nth_error ps i) |})
                  0 (c :: cs))
      end
  end.

(** The handlers are closures of one render: [s] is the state that render
    saw, and stays what the handler reads however the setters move the
    store.  [handleSubmitAnswers] declares no parameter, so the arguments
    [handleAnalyze] passes it are dropped. *)

Definition submit_catch (err : error) : process :=
  Do (alert "Error generating or saving report.")
  (Do (setStage "idle") Ret).

(** The object literal [payload], for the stage-1 result [r] the render
    saw. *)
Definition payload_of (p : props) (r : stage1_data) (s : state)
  : stage2_payload :=
  {| payload_top3_classes := top3_classes r;
     payload_top3_probs := top3_probs r;
     payload_rag_summary := rag_summary r;
     payload_questions := questions r;
     payload_answers := answers s;
     patient_ref := patientRef p;
     image_url := imageUrl p |}.

(** The object literal [aiResult], once [.map] has given [preds]. *)
Definition aiResult_of (preds : list prediction) (r : stage1_data)
           (s : state) (data : stage2_data) : ai_result :=
  {| topPredictions := preds;
     aiFinalReport := final_report data;
     ragSummary := rag_summary r;
     patientAnswers := answers s |}.

Definition submit_try (p : props) (s : state) : process :=
  match stage1Result s with
  | None => Throw TypeError            (* stage1Result.top3_classes of null *)
  | Some r =>
      await (axios_post_json (stage2_url p) (payload_of p r s)) (fun data =>
      Do (setFinalReport
            (or_else (final_report data) "No detailed AI report available."))
      (Do (setStage "report")
      (match top_predictions r with
       | None => Throw TypeError
       | Some preds =>
           await (http_post (saveUrl p)
                    {| save_patient_ref := patientRef p;
                       save_key := dataKey p;
                       save_result := aiResult_of preds r s data |})
                 (fun _ => Ret)
       end)))
  end.

Definition handleSubmitAnswers (p : props) (s : state) : process :=
  Do (setLoading true)
  (Do (setStage "generating")
  (try_catch_finally (submit_try p s) submit_catch
     (Do (setLoading false) Ret))).

Definition analyze_catch (err : error) : process :=
  Do (alert "Error analyzing image. Check AI backend logs.")
  (Do (setStage "idle") Ret).

(** [!res.data.questions || res.data.questions.length === 0] *)
Definition no_questions (d : stage1_data) : bool :=
  match questions d with
  | None | Some [] => true
  | Some (_ :: _) => false
  end.

Definition questions_length (d : stage1_data) : nat :=
  match questions d with
  | Some qs => List.length qs
  | None => 0
  end.

Definition analyze_try (p : props) (s : state) : process :=
  await (fetch (imageUrl p)) (fun imageResponse =>
  await (blob imageResponse) (fun b =>
  await (axios_post_form (stage1_url p) [("image", b, "patient_image.jpg")])
    (fun data =>
  Do (setStage1Result data)
  (if no_questions data
   then Call (handleSubmitAnswers p s) Ret
   else Do (setAnswers (repeat (Some "") (questions_length data)))
        (Do (setStage "questions") Ret))))).

Definition handleAnalyze (p : props) (s : state) : process :=
  if loading s then Ret else
  Do (setLoading true)
  (Do (setStage "analyzing")
  (try_catch_finally (analyze_try p s) analyze_catch
     (Do (setLoading false) Ret))).

(** [handleAnswerChange(e)], with [value] for [e.target.value]. *)
Definition handleAnswerChange (s : state) (value : string) : process :=
  Do (setAnswers (array_set (answers s) (currentQ s) value)) Ret.

Definition nextQuestion (p : props) (s : state) : process :=
  if negb (truthy (array_get (answers s) (currentQ s)))
  then Do (alert "Please answer this question.") Ret
  else
    match stage1Result s with
    | None => Throw TypeError
    | Some r =>
        match questions r with
        | None => Throw TypeError
        | Some qs =>
            if (Z.of_nat (currentQ s) <? Z.of_nat (List.length qs) - 1)%Z
            then Do (setCurrentQ (currentQ s + 1)) Ret
            else Call (handleSubmitAnswers p s) Ret
        end
    end.

(** ** What is on screen, and the events *)

(** The card with the Analyze button: [stage === "idle"]. *)
Definition idle_card (s : state) : bool := stage s =? "idle".

(** The question card: [stage === "questions" && stage1Result]. *)
Definition question_card (s : state) : bool :=
  (stage s =? "questions") &&
  match stage1Result s with Some _ => true | None => false end.

(** The report card: [stage === "report" && finalReport]. *)
Definition report_card (s : state) : bool :=
  (stage s =? "report") && truthy (finalReport s).

Inductive event : Type :=
| ClickAnalyze                                  (* onClick={handleAnalyze} *)
| ChangeAnswer (value : string)                 (* onChange of the input *)
| ClickNext                                     (* onClick={nextQuestion} *)
| Settle (i : nat) (env : oracle request).      (* a promise settles *)

(** A control fires only while it is on screen, and its handler is the
    closure of the render of the current state.  A click on the Analyze
    button is passed to [handleAnalyze] whether or not the button is
    [disabled]: the handler has its own guard. *)
Definition step (p : props) (ev : event) (w : world) : option world :=
  match ev with
  | ClickAnalyze =>
      if idle_card (st w)
      then Some (fire apply (handleAnalyze p (st w)) w)
      else None
  | ChangeAnswer v =>
      if question_card (st w)
      then Some (fire apply (handleAnswerChange (st w) v) w)
      else None
  | ClickNext =>
      if question_card (st w)
      then Some (fire apply (nextQuestion p (st w)) w)
      else None
  | Settle i env => settle apply i env w
  end.

Definition start : world := {| st := initial; log := []; pending := [] |}.

Fixpoint steps (p : props) (evs : list event) (w : world) : option world :=
  match evs with
  | [] => Some w
  | ev :: rest =>
      match step p ev w with
      | Some w' => steps p rest w'
      | None => None
      end
  end.

Inductive reachable (p : props) : world -> Prop :=
| reach_start : reachable p start
| reach_step w ev w' :
    reachable p w -> step p ev w = Some w' -> reachable p w'.

(** ** Observations on the log *)

Definition alert_of (x : entry action request) : option string :=
  match x with
  | Did (alert msg) => Some msg
  | _ => None
  end.

Fixpoint filter_map {X Y : Type} (f : X -> option Y) (l : list X) : list Y :=
  match l with
  | [] => []
  | x :: t =>
      match f x with
      | Some y => y :: filter_map f t
      | None => filter_map f t
      end
  end.

(** The alerts shown so far, oldest first. *)
Definition alerts (w : world) : list string := filter_map alert_of (log w).

(** The stage-2 and the save calls made so far, oldest first. *)
Definition stage2_post_of (x : entry action request)
  : option (string * stage2_payload) :=
  match x with
  | Sent _ (axios_post_json url payload) => Some (url, payload)
  | _ => None
  end.

Definition save_post_of (x : entry action request)
  : option (string * save_body) :=
  match x with
  | Sent _ (http_post url body) => Some (url, body)
  | _ => None
  end.

Definition stage2_posts (w : world) : list (string * stage2_payload) :=
  filter_map stage2_post_of (log w).

Definition save_posts (w : world) : list (string * save_body) :=
  filter_map save_post_of (log w).

(** ** The stage flag as a state machine *)

Definition stages : list string :=
  ["idle"; "analyzing"; "questions"; "generating"; "report"].

(** One step along idle, analyzing, questions, generating, report, where
    questions may be skipped. *)
Definition advances (a b : string) : bool :=
  (a =? "idle") && (b =? "analyzing") ||
  (a =? "analyzing") && (b =? "questions") ||
  (a =? "analyzing") && (b =? "generating") ||
  (a =? "questions") && (b =? "generating") ||
  (a =? "generating") && (b =? "report").

(** The value of the stage flag after the effects of a log, from [c]. *)
Fixpoint stage_after (c : string) (l : list (entry action request))
  : string :=
  match l with
  | [] => c
  | Did (setStage s) :: t => stage_after s t
  | _ :: t => stage_after c t
  end.

Definition is_alert (x : entry action request) : bool :=
  match x with
  | Did (alert _) => true
  | _ => false
  end.

(** The last thing that happened in [l] is an alert. *)
Definition after_alert (l : list (entry action request)) : bool :=
  match rev l with
  | x :: _ => is_alert x
  | [] => false
  end.

(** Every assignment to the stage flag in [l] either advances it or, right
    after an alert, resets it to idle. *)
Definition legal_history (l : list (entry action request)) : Prop :=
  forall l1 s l2,
    l = (l1 ++ Did (setStage s) :: l2)%list ->
    advances (stage_after "idle" l1) s = true \/
    (s = "idle" /\ after_alert l1 = true).

(** The stages in which no control of the component is on screen. *)
Definition busy (c : string) : bool :=
  (c =? "analyzing") || (c =? "generating") || (c =? "report").

Definition plain (x : action) : bool :=
  match x with
  | setStage _ | alert _ => false
  | _ => true
  end.

(** A block of setters other than [setStage]. *)
Fixpoint tail (p : process) : bool :=
  match p with
  | Ret => true
  | Do x k => plain x && tail k
  | Throw _ | Call _ _ | Await _ _ _ => false
  end.

Definition allowed (c : string) (alerted : bool) (s : string) : bool :=
  advances c s || alerted && (s =? "idle").

(** [disciplined c alerted p]: started in stage [c] ([alerted] when an
    alert has just been shown), [p] only makes allowed assignments to the
    stage flag, awaits only in a busy stage, and lets no second operation
    start while one is in flight. *)
Inductive disciplined : string -> bool -> process -> Prop :=
| d_Ret c a : disciplined c a Ret
| d_Throw c a err : disciplined c a (Throw err)
| d_setStage c a s k :
    allowed c a s = true -> disciplined s false k ->
    disciplined c a (Do (setStage s) k)
| d_alert c a msg k :
    disciplined c true k -> disciplined c a (Do (alert msg) k)
| d_plain c a x k :
    plain x = true -> disciplined c false k -> disciplined c a (Do x k)
| d_Await c a R e k :
    busy c = true -> (forall r, disciplined c false (k r)) ->
    disciplined c a (Await R e k)
| d_Call c a q k :
    disciplined c a q -> tail k = true -> disciplined c a (Call q k).

(** The invariant of the reachable worlds. *)
Definition invariant (w : world) : Prop :=
  stage (st w) = stage_after "idle" (log w) /\
  legal_history (log w) /\
  In (stage (st w)) stages /\
  match pending w with
  | [] => True
  | [Pend R e k] =>
      busy (stage (st w)) = true /\
      forall r, disciplined (stage (st w)) false (k r)
  | _ :: _ :: _ => False
  end.

(** What a run from [m] to [m'] keeps of the invariant. *)
Definition after_run (m m' : world) : Prop :=
  stage (st m') = stage_after "idle" (log m') /\
  legal_history (log m') /\
  In (stage (st m')) stages /\
  (pending m' = pending m \/
   exists R e k,
     pending m' = (pending m ++ [Pend R e k])%list /\
     busy (stage (st m')) = true /\
     forall r, disciplined (stage (st m')) false (k r)).

(** The images fetched and the stage-1 calls made so far, oldest first. *)
Definition fetch_of (x : entry action request) : option string :=
  match x with
  | Sent _ (fetch url) => Some url
  | _ => None
  end.

Definition stage1_post_of (x : entry action request)
  : option (string * FormData) :=
  match x with
  | Sent _ (axios_post_form url formData) => Some (url, formData)
  | _ => None
  end.

Definition fetches (w : world) : list string :=
  filter_map fetch_of (log w).

Definition stage1_posts (w : world) : list (string * FormData) :=
  filter_map stage1_post_of (log w).

(** The label of the button of the question card:
    [currentQ < stage1Result.questions.length - 1 ? "Next" : "Generate
    Report"]; [None] when the render throws. *)
Inductive button_label : Type :=
| NextLabel
| GenerateReportLabel.

Definition next_button_label (s : state) : option button_label :=
  match stage1Result s with
  | None => None
  | Some r =>
      match questions r with
      | None => None
      | Some qs =>
          Some (if (Z.of_nat (currentQ s) <? Z.of_nat (List.length qs) - 1)%Z
                then NextLabel
                else GenerateReportLabel)
      end
  end.

(** ** Guarantees of the handlers *)

(** Every handler, started by its control in a state [s] in which that
    control is on screen, meets [G] from [s] and on every resumption. *)
Definition handlers_guarantee (G : state -> state -> Prop) (p : props)
  : Prop :=
  (forall s, idle_card s = true ->
             guarantees apply G (handleAnalyze p s) (G s) s) /\
  (forall s v, question_card s = true ->
               guarantees apply G (handleAnswerChange s v) (G s) s) /\
  (forall s, question_card s = true ->
             guarantees apply G (nextQuestion p s) (G s) s).

(** In the stages that show a control nothing is loading. *)
Definition settled_when_interactive (s : state) : Prop :=
  stage s = "idle" \/ stage s = "questions" ->
  loading s = false.

(** In stage report a non-empty report is stored. *)
Definition report_is_stored (s : state) : Prop :=
  stage s = "report" -> truthy (finalReport s) = true.

(** In stage questions the stage-1 result holds questions. *)
Definition questions_are_stored (s : state) : Prop :=
  stage s = "questions" ->
  exists r q qs, stage1Result s = Some r /\ questions r = Some (q :: qs).

(** The question on screen is one of the stored questions, there is an
    answer slot for every question, and all questions before it have been
    answered. *)
Definition answered_so_far (s : state) : Prop :=
  exists r qs,
    stage1Result s = Some r /\
    questions r = Some qs /\
    List.length (answers s) = List.length qs /\
    currentQ s < List.length qs /\
    forall i, i < currentQ s -> truthy (array_get (answers s) i) = true.

(** Every entry of an answers array is a non-empty string. *)
Definition all_given (a : list (option string)) : Prop :=
  Forall (fun x => truthy x = true) a.

(** The events of the nurse at the question card. *)
Definition at_question_card (ev : event) : bool :=
  match ev with
  | ChangeAnswer _ | ClickNext => true
  | ClickAnalyze | Settle _ _ => false
  end.

End Component.

Arguments Stage1 {num} top3_classes top3_probs rag_summary questions.
Arguments top3_classes {num} s.
Arguments top3_probs {num} s.
Arguments rag_summary {num} s.
Arguments questions {num} s.
Arguments State {num} stage loading stage1Result answers currentQ finalReport.
Arguments stage {num} s.
Arguments loading {num} s.
Arguments stage1Result {num} s.
Arguments answers {num} s.
Arguments currentQ {num} s.
Arguments finalReport {num} s.
Arguments initial {num}.
Arguments Payload {num} _ _ _ _ _ _ _.
Arguments payload_top3_classes {num} s.
Arguments payload_top3_probs {num} s.
Arguments payload_rag_summary {num} s.
Arguments payload_questions {num} s.
Arguments payload_answers {num} s.
Arguments patient_ref {num} s.
Arguments image_url {num} s.
Arguments fetch {num} url.
Arguments blob {num} r.
Arguments axios_post_form {num} url formData.
Arguments axios_post_json {num} url payload.
Arguments http_post {num} url body.
Arguments setStage {num} s.
Arguments setLoading {num} b.
Arguments setStage1Result {num} d.
Arguments setAnswers {num} a.
Arguments setCurrentQ {num} n.
Arguments setFinalReport {num} r.
Arguments alert {num} msg.
Arguments apply {num} a s.
Arguments top_predictions {num} percent r.
Arguments submit_catch {num} err.
Arguments payload_of {num} p r s.
Arguments aiResult_of {num} preds r s data.
Arguments submit_try {num} percent p s.
Arguments handleSubmitAnswers {num} percent p s.
Arguments analyze_catch {num} err.
Arguments no_questions {num} d.
Arguments questions_length {num} d.
Arguments analyze_try {num} percent p s.
Arguments handleAnalyze {num} percent p s.
Arguments handleAnswerChange {num} s value.
Arguments nextQuestion {num} percent p s.
Arguments idle_card {num} s.
Arguments question_card {num} s.
Arguments report_card {num} s.
Arguments ClickAnalyze {num}.
Arguments ChangeAnswer {num} value.
Arguments ClickNext {num}.
Arguments Settle {num} i env.
Arguments step {num} percent p ev w.
Arguments start {num}.
Arguments steps {num} percent p evs w.
Arguments reachable {num} percent p w.
Arguments alert_of {num} x.
Arguments alerts {num} w.
Arguments stage2_post_of {num} x.
Arguments save_post_of {num} x.
Arguments stage2_posts {num} w.
Arguments save_posts {num} w.
Arguments stage_after {num} c l.
Arguments is_alert {num} x.
Arguments after_alert {num} l.
Arguments legal_history {num} l.
Arguments plain {num} x.
Arguments tail {num} p.
Arguments disciplined {num} c alerted p.
Arguments invariant {num} w.
Arguments after_run {num} m m'.
Arguments handlers_guarantee {num} percent G p.
Arguments answered_so_far {num} s.
Arguments next_button_label {num} s.
Arguments fetch_of {num} x.
Arguments stage1_post_of {num} x.
Arguments fetches {num} w.
Arguments stage1_posts {num} w.
Arguments settled_when_interactive {num} s.
Arguments report_is_stored {num} s.
Arguments questions_are_stored {num} s.
Arguments at_question_card {num} ev.

End AIImageAnalysis.

(* ================================================================== *)
(** * AISummary: the AI summary viewer *)
(* ================================================================== *)

Module AISummary.
Import Async.
Local Open Scope list_scope.

(** ** [toBulletList] *)

(** A JS string is a sequence of UTF-16 code units. *)
Definition jsstring : Type := list N.

Definition LF : N := 10.       (* "\n" *)
Definition STAR : N := 42.     (* "*" *)

(** The class [\s] of a regular expression, which is also what [trim]
    strips: ECMAScript WhiteSpace and LineTerminator. *)
Definition is_space (c : N) : bool :=
  ((9 <=? c) && (c <=? 13) ||
   (c =? 32) || (c =? 160) || (c =? 5760) ||
   (8192 <=? c) && (c <=? 8202) ||
   (c =? 8232) || (c =? 8233) || (c =? 8239) || (c =? 8287) ||
   (c =? 12288) || (c =? 65279))%N.

(** [text.split("\n")] *)
Fixpoint split_lines (text : jsstring) : list jsstring :=
  match text with
  | [] => [[]]
  | c :: rest =>
      if (c =? LF)%N then [] :: split_lines rest
      else match split_lines rest with
           | line :: lines => (c :: line) :: lines
           | [] => [[c]]
           end
  end.

(** The longest match of [\s*] at the head is dropped. *)
Fixpoint drop_spaces (line : jsstring) : jsstring :=
  match line with
  | c :: rest => if is_space c then drop_spaces rest else line
  | [] => []
  end.

(** The match of [\*?] at the head is dropped. *)
Definition drop_star (line : jsstring) : jsstring :=
  match line with
  | c :: rest => if (c =? STAR)%N then rest else line
  | [] => []
  end.

(** [line.replace(/^\*?\s*/g, "")].  The pattern is anchored and the regex
    is not multiline, so it matches once, at index 0, greedily. *)
Definition strip_bullet (line : jsstring) : jsstring :=
  drop_spaces (drop_star line).

(** [line.trim()] *)
Definition trim (line : jsstring) : jsstring :=
  rev (drop_spaces (rev (drop_spaces line))).

(** [toBulletList(text)]; [None] is [null] or [undefined]. *)
Definition toBulletList (text : option jsstring) : list jsstring :=
  match text with
  | None => []
  | Some [] => []
  | Some t =>
      filter (fun line => Nat.ltb 0 (List.length (trim line)))
             (map strip_bullet (split_lines t))
  end.

(** *** The bullet list as the specification words it *)

(** [lines] joined by newline characters. *)
Fixpoint join_lines (lines : list jsstring) : jsstring :=
  match lines with
  | [] => []
  | [line] => line
  | line :: rest => line ++ LF :: join_lines rest
  end.

(** Splitting on newline characters: the pieces hold no newline and give
    the text back when joined by newlines. *)
Definition splits_on_newlines (text : jsstring) (lines : list jsstring)
  : Prop :=
  lines <> [] /\
  join_lines lines = text /\
  forall line, In line lines -> ~ In LF line.

(** Empty or whitespace-only. *)
Definition blank (line : jsstring) : bool := forallb is_space line.

(** [line] without at most one leading ["*"] together with the whitespace
    that immediately follows: [rest] is what remains. *)
Inductive without_bullet : jsstring -> jsstring -> Prop :=
| wb_star (spaces rest : jsstring) :
    forallb is_space spaces = true ->
    hd_error (map is_space rest) <> Some true ->
    without_bullet (STAR :: spaces ++ rest) rest
| wb_plain (spaces rest : jsstring) :
    forallb is_space spaces = true ->
    hd_error (map is_space rest) <> Some true ->
    hd_error (spaces ++ rest) <> Some STAR ->
    without_bullet (spaces ++ rest) rest.

(** The list the specification describes, for a text and its lines. *)
Inductive bullet_list : list jsstring -> list jsstring -> Prop :=
| bl_nil : bullet_list [] []
| bl_keep line rest lines out :
    without_bullet line rest -> blank rest = false ->
    bullet_list lines out -> bullet_list (line :: lines) (rest :: out)
| bl_drop line rest lines out :
    without_bullet line rest -> blank rest = true ->
    bullet_list lines out -> bullet_list (line :: lines) out.

Definition bullet_list_spec (text : option jsstring) (out : list jsstring)
  : Prop :=
  match text with
  | None | Some [] => out = []
  | Some t =>
      exists lines, splits_on_newlines t lines /\ bullet_list lines out
  end.

(** ** The detailed summary *)

(** A value of [aiData.summary]: a text, a list of texts, or nothing
    ([null], [undefined]). *)
Inductive summary_value : Type :=
| Absent
| Text (text : jsstring)
| Items (items : list jsstring).

Record section : Type := MkSection {
  heading : jsstring;
  bullets : list jsstring
}.

Definition UNDERSCORE : N := 95.
Definition SPACE : N := 32.

(** [key.replace(/_/g, " ")] *)
Definition heading_of (key : jsstring) : jsstring :=
  map (fun c => if (c =? UNDERSCORE)%N then SPACE else c) key.

(** One entry of [Object.entries(aiData.summary)]:
    [value && value.length !== 0 && (<div> heading, list </div>)], the list
    being [value] itself when it is an array and [toBulletList(value)]
    otherwise.  [None]: nothing is rendered for the entry. *)
Definition section_of (entry : jsstring * summary_value) : option section :=
  match snd entry with
  | Absent => None
  | Text [] => None
  | Text t =>
      Some {| heading := heading_of (fst entry);
              bullets := toBulletList (Some t) |}
  | Items [] => None
  | Items l => Some {| heading := heading_of (fst entry); bullets := l |}
  end.

(** [value && value.length !== 0]: the guard of the entry, on its own. *)
Definition has_content (value : summary_value) : bool :=
  match value with
  | Absent | Text [] | Items [] => false
  | Text (_ :: _) | Items (_ :: _) => true
  end.

Fixpoint detail_sections (entries : list (jsstring * summary_value))
  : list section :=
  match entries with
  | [] => []
  | e :: rest =>
      match section_of e with
      | Some s => s :: detail_sections rest
      | None => detail_sections rest
      end
  end.

(** Code units of a text typed in ASCII, for examples. *)
Definition units (s : string) : jsstring :=
  map N_of_ascii (list_ascii_of_string s).

(** ** The component *)

Section Viewer.

(** An AI result object: a patient's [aiSummary] or a case of the history.
    Its fields are only displayed. *)
Variable ai : Type.

(** [location.state.patient]; the fields left out are only displayed. *)
Record patient : Type := Patient {
  conditionType : string;
  aiSummary : option ai
}.

(** [res.data] of [GET /cases/{ref}]. *)
Record cases_data : Type := CasesData {
  cases : option (list ai)
}.

Record state : Type := State {
  loading : bool;
  aiData : option ai;
  error : string
}.

Definition initial : state :=
  {| loading := true; aiData := None; error := "" |}.

Inductive request : Type -> Type :=
| http_get (url : string) : request cases_data.

Inductive action : Type :=
| setLoading (b : bool)
| setAiData (d : option ai)
| setError (msg : string).

Definition apply (a : action) (s : state) : state :=
  match a with
  | setLoading v => {| loading := v; aiData := aiData s; error := error s |}
  | setAiData v => {| loading := loading s; aiData := v; error := error s |}
  | setError v => {| loading := loading s; aiData := aiData s; error := v |}
  end.

Definition process : Type := proc action request.
Definition world : Type := machine action request state.

(** [`/cases/${ref}`], where [ref = params.get("ref")] is [null] when the
    query has no such parameter. *)
Definition cases_url (ref : option string) : string :=
  ("/cases/" ++ match ref with Some r => r | None => "null" end)%string.

Definition loadAI (ref : option string) (passedPatient : patient) : process :=
  try_catch_finally
    (if (conditionType passedPatient =? "wound")%string ||
        (conditionType passedPatient =? "skin")%string
     then Do (setAiData (aiSummary passedPatient)) Ret
     else
       await (http_get (cases_url ref)) (fun data =>
       let cases := match cases data with Some l => l | None => [] end in
       let latest :=
         if Nat.ltb 0 (List.length cases)
         then nth_error cases (List.length cases - 1)
         else None in
       Do (setAiData latest) Ret))
    (fun _ => Do (setError "Failed to load AI Summary.") Ret)
    (Do (setLoading false) Ret).

(** The body of the [useEffect]. *)
Definition effect (ref : option string) (passedPatient : option patient)
  : process :=
  match passedPatient with
  | None =>
      Do (setError "No patient data received.") (Do (setLoading false) Ret)
  | Some pt => Call (loadAI ref pt) Ret
  end.

(** What the summary card holds. *)
Inductive card : Type :=
| NoSummaryMessage            (* <p>No AI summary available.</p> *)
| Results (aiData : ai).      (* the sections showing [aiData] *)

Inductive view : Type :=
| Loading
| ErrorMessage (msg : string)
| Summary (pt : patient) (c : card).

(** The render; [None] when it throws ([patient.firstName] of [null]). *)
Definition render (passedPatient : option patient) (s : state)
  : option view :=
  if loading s then Some Loading
  else if negb (error s =? "")%string then Some (ErrorMessage (error s))
  else
    match passedPatient with
    | None => None
    | Some pt =>
        Some (Summary pt
                (match aiData s with
                 | None => NoSummaryMessage
                 | Some d => Results d
                 end))
    end.

Definition start : world := {| st := initial; log := []; pending := [] |}.

(** The component after its first render: the effect has run. *)
Definition mount (ref : option string) (passedPatient : option patient)
  : world :=
  fire apply (effect ref passedPatient) start.

(** The URLs requested so far, oldest first. *)
Definition url_of (x : entry action request) : option string :=
  match x with
  | Sent _ (http_get url) => Some url
  | _ => None
  end.

Fixpoint requests (l : list (entry action request)) : list string :=
  match l with
  | [] => []
  | x :: t =>
      match url_of x with
      | Some u => u :: requests t
      | None => requests t
      end
  end.

End Viewer.

Arguments Patient {ai} conditionType aiSummary.
Arguments conditionType {ai} p.
Arguments aiSummary {ai} p.
Arguments CasesData {ai} cases.
Arguments cases {ai} c.
Arguments State {ai} loading aiData error.
Arguments loading {ai} s.
Arguments aiData {ai} s.
Arguments error {ai} s.
Arguments initial {ai}.
Arguments http_get {ai} url.
Arguments setLoading {ai} b.
Arguments setAiData {ai} d.
Arguments setError {ai} msg.
Arguments apply {ai} a s.
Arguments loadAI {ai} ref passedPatient.
Arguments effect {ai} ref passedPatient.
Arguments NoSummaryMessage {ai}.
Arguments Results {ai} aiData.
Arguments Loading {ai}.
Arguments ErrorMessage {ai} msg.
Arguments Summary {ai} pt c.
Arguments render {ai} passedPatient s.
Arguments start {ai}.
Arguments mount {ai} ref passedPatient.
Arguments url_of {ai} x.
Arguments requests {ai} l.

End AISummary.

(* ================================================================== *)
(** * WoundCareAI: the wound-care page *)
(* ================================================================== *)

Module WoundCareAI.
Import Async.

Record photo : Type := Photo {
  url : option string
}.

(** [res.data] of [GET /patients/{ref}]. *)
Record patient_data : Type := PatientData {
  photos : option (list photo)
}.

Record state : Type := State {
  imageUrl : option string;
  loading : bool
}.

Definition initial : state := {| imageUrl := None; loading := true |}.

(** The call stands for [res.data], which the page reads null-safely. *)
Inductive request : Type -> Type :=
| http_get (url : string) : request (option patient_data).

Inductive action : Type :=
| setImageUrl (u : option string)
| setLoading (b : bool)
| alert (msg : string)
| console_error (msg : string) (err : error)
| set_location_href (href : string).

Definition apply (a : action) (s : state) : state :=
  match a with
  | setImageUrl v => {| imageUrl := v; loading := loading s |}
  | setLoading v => {| imageUrl := imageUrl s; loading := v |}
  | alert _ | console_error _ _ | set_location_href _ => s
  end.

Definition process : Type := proc action request.
Definition world : Type := machine action request state.

(** [new URLSearchParams(window.location.search).get('ref') || ''] *)
Definition ref_of (query_ref : option string) : string :=
  match query_ref with
  | Some r => r
  | None => ""
  end.

(** [res.data?.photos || []] *)
Definition photos_or_empty (data : option patient_data) : list photo :=
  match data with
  | Some d => match photos d with Some l => l | None => [] end
  | None => []
  end.

Definition fetchPatientImage (ref : string) : process :=
  try_catch_finally
    (await (http_get ("/patients/" ++ ref)) (fun data =>
     match photos_or_empty data with
     | first :: _ => Do (setImageUrl (url first)) Ret
     | [] => Do (alert "No image found for this patient.") Ret
     end))
    (fun err =>
       Do (console_error "Error fetching patient image:" err)
       (if status_is err 401
        then Do (alert "Session expired. Please log in again.")
             (Do (set_location_href "/login") Ret)
        else Do (alert "Failed to fetch patient data.") Ret))
    (Do (setLoading false) Ret).

(** The body of the [useEffect]: [if (ref) fetchPatientImage()]. *)
Definition effect (ref : string) : process :=
  if ref =? "" then Ret else Call (fetchPatientImage ref) Ret.

(** What the card holds below the loading line. *)
Inductive card : Type :=
| Analysis (img_src : string) (analysis : AIImageAnalysis.props)
| NoImageMessage          (* No image available for this patient. *)
| Empty.

Record view : Type := View {
  loading_line : bool;      (* Loading image... *)
  body : card
}.

Definition render (ref : string) (s : state) : view :=
  {| loading_line := loading s;
     body :=
       match imageUrl s with
       | Some u =>
           if u =? "" then (if loading s then Empty else NoImageMessage)
           else Analysis u
                  {| AIImageAnalysis.conditionType := "wound";
                     AIImageAnalysis.imageUrl := u;
                     AIImageAnalysis.patientRef := ref |}
       | None => if loading s then Empty else NoImageMessage
       end |}.

Definition start : world := {| st := initial; log := []; pending := [] |}.

(** The page after its first render: the effect has run. *)
Definition mount (ref : string) : world := fire apply (effect ref) start.

Definition url_of (x : entry action request) : option string :=
  match x with
  | Sent _ (http_get url) => Some url
  | _ => None
  end.

(** The URLs requested so far, oldest first. *)
Fixpoint requests (l : list (entry action request)) : list string :=
  match l with
  | [] => []
  | x :: t =>
      match url_of x with
      | Some u => u :: requests t
      | None => requests t
      end
  end.

Definition alert_of (x : entry action request) : option string :=
  match x with
  | Did (alert msg) => Some msg
  | _ => None
  end.

(** The alerts shown so far, oldest first. *)
Fixpoint alerts (l : list (entry action request)) : list string :=
  match l with
  | [] => []
  | x :: t =>
      match alert_of x with
      | Some u => u :: alerts t
      | None => alerts t
      end
  end.

Definition href_of (x : entry action request) : option string :=
  match x with
  | Did (set_location_href href) => Some href
  | _ => None
  end.

(** The addresses the page was sent to, oldest first. *)
Fixpoint redirects (l : list (entry action request)) : list string :=
  match l with
  | [] => []
  | x :: t =>
      match href_of x with
      | Some u => u :: redirects t
      | None => redirects t
      end
  end.

End WoundCareAI.

(* ================================================================== *)
(** * Scenarios *)
(* ================================================================== *)

(** Concrete props, responses and environments, to run the components on. *)
Module Scenario.
Import Async.

(** Probabilities as whole per cent; the formatting is a stand-in. *)
Definition percent (x : option nat) : string :=
  match x with
  | Some 0 => "0.00"
  | Some _ => "100.00"
  | None => "NaN"
  end.

Definition wound : AIImageAnalysis.props :=
  {| AIImageAnalysis.conditionType := "wound";
     AIImageAnalysis.imageUrl := "/uploads/wound.jpg";
     AIImageAnalysis.patientRef := "P-001" |}.

Definition skin : AIImageAnalysis.props :=
  {| AIImageAnalysis.conditionType := "skin";
     AIImageAnalysis.imageUrl := "/uploads/rash.jpg";
     AIImageAnalysis.patientRef := "P-002" |}.

(** A stage-1 result with the follow-up questions [qs]. *)
Definition classified (qs : option (list string))
  : AIImageAnalysis.stage1_data nat :=
  {| AIImageAnalysis.top3_classes := Some ["burn"; "cut"; "ulcer"];
     AIImageAnalysis.top3_probs := Some [1; 0; 0];
     AIImageAnalysis.rag_summary := Some "Keep the wound clean.";
     AIImageAnalysis.questions := qs |}.

Definition three_questions : list string :=
  ["How old is the wound?"; "Is there any discharge?"; "Any fever?"].

(** Every operation succeeds; stage 1 answers [d], stage 2 [report]. *)
Definition succeed (d : AIImageAnalysis.stage1_data nat)
           (report : option string)
  : oracle (AIImageAnalysis.request nat) :=
  fun R e =>
    match e in AIImageAnalysis.request _ R return settled R with
    | AIImageAnalysis.fetch _ =>
        Fulfilled (AIImageAnalysis.HttpResponse "jpeg")
    | AIImageAnalysis.blob _ => Fulfilled (AIImageAnalysis.BlobOf "jpeg")
    | AIImageAnalysis.axios_post_form _ _ => Fulfilled d
    | AIImageAnalysis.axios_post_json _ _ =>
        Fulfilled {| AIImageAnalysis.final_report := report |}
    | AIImageAnalysis.http_post _ _ => Fulfilled tt
    end.

(** Every operation fails for want of a network. *)
Definition offline : oracle (AIImageAnalysis.request nat) :=
  fun R e => Rejected NetworkError.

Definition online : oracle (AIImageAnalysis.request nat) :=
  succeed (classified (Some three_questions)) (Some "Superficial burn.").

(** The wound wizard after the events [evs]; an event that cannot fire
    leaves the start. *)
Definition after (evs : list (AIImageAnalysis.event nat))
  : AIImageAnalysis.world nat :=
  match AIImageAnalysis.steps percent wound evs AIImageAnalysis.start with
  | Some w => w
  | None => AIImageAnalysis.start
  end.

(** The image is analysed and three questions come back. *)
Definition analysis : list (AIImageAnalysis.event nat) :=
  [ AIImageAnalysis.ClickAnalyze;
    AIImageAnalysis.Settle 0 online;
    AIImageAnalysis.Settle 0 online;
    AIImageAnalysis.Settle 0 online ].

(** The nurse answers the first two questions and types the third answer. *)
Definition answering : list (AIImageAnalysis.event nat) :=
  [ AIImageAnalysis.ChangeAnswer "two days";
    AIImageAnalysis.ClickNext;
    AIImageAnalysis.ChangeAnswer "none";
    AIImageAnalysis.ClickNext;
    AIImageAnalysis.ChangeAnswer "no" ].

(** The answers are submitted and the stage-2 call fails. *)
Definition failed_report : list (AIImageAnalysis.event nat) :=
  (analysis ++ answering ++
   [ AIImageAnalysis.ClickNext; AIImageAnalysis.Settle 0 offline ])%list.

(** After that failure the image is analysed again, and the nurse answers
    the one question she is shown. *)
Definition second_analysis : list (AIImageAnalysis.event nat) :=
  (failed_report ++ analysis ++
   [ AIImageAnalysis.ChangeAnswer "no"; AIImageAnalysis.ClickNext ])%list.

(** Another stage-1 result, without follow-up questions. *)
Definition reclassified : AIImageAnalysis.stage1_data nat :=
  {| AIImageAnalysis.top3_classes := Some ["eczema"; "acne"; "rash"];
     AIImageAnalysis.top3_probs := Some [0; 1; 0];
     AIImageAnalysis.rag_summary := Some "Keep the skin dry.";
     AIImageAnalysis.questions := Some [] |}.

(** Stage 1 answers [reclassified]. *)
Definition rerun : oracle (AIImageAnalysis.request nat) :=
  succeed reclassified (Some "Eczema.").

(** The image is analysed and no question comes back. *)
Definition no_question_analysis : list (AIImageAnalysis.event nat) :=
  [ AIImageAnalysis.ClickAnalyze;
    AIImageAnalysis.Settle 0 (succeed (classified (Some [])) (Some "Burn."));
    AIImageAnalysis.Settle 0 (succeed (classified (Some [])) (Some "Burn."));
    AIImageAnalysis.Settle 0 (succeed (classified (Some [])) (Some "Burn.")) ].

End Scenario.

(* ================================================================== *)
(** * Facts about processes *)
(* ================================================================== *)

Module AsyncFacts.
Import Async.

Section Facts.
Variable A : Type.
Variable E : Type -> Type.
Variable St : Type.
Variable apply : A -> St -> St.

(** How a process ends does not depend on the store it runs on. *)
Lemma run_result (p : proc A E) :
  forall envs (m : machine A E St), fst (run apply p envs m) = result p envs.
Proof.
  induction p as [ | err | a k IH | c IHc k IHk | R e k IH ];
    intros envs m; simpl; auto.
  - destruct (run apply c [] m) as [o m1]. apply IHk.
  - destruct envs as [ | env rest ]; simpl; auto.
Qed.

Lemma run_Do (a : A) (k : proc A E) envs (m : machine A E St) :
  run apply (Do a k) envs m = run apply k envs (did apply a m).
Proof. reflexivity. Qed.

Lemma run_straight (p : proc A E) :
  straight p = true ->
  forall envs (m : machine A E St), run apply p envs m = (Normal, do_all apply p m).
Proof.
  induction p as [ | err | a k IH | c IHc k IHk | R e k IH ];
    simpl; intros Hs envs m; try discriminate; auto.
Qed.

Lemma run_finally_straight (t fin : proc A E) :
  straight t = true ->
  forall envs (m : machine A E St),
    run apply (finally t fin) envs m = run apply fin envs (do_all apply t m).
Proof.
  induction t as [ | err | a k IH | c IHc k IHk | R e k IH ];
    simpl; intros Hs envs m; try discriminate; auto.
Qed.

(** When the body of a [try] throws, the [catch] block runs on what the
    body left, then the [finally] block, and the statement completes. *)
Lemma run_caught (body : proc A E) (handler : error -> proc A E) (fin : proc A E) :
  (forall err, straight (handler err) = true) ->
  straight fin = true ->
  forall envs (m m' : machine A E St) err,
    run apply body envs m = (Thrown err, m') ->
    run apply (try_catch_finally body handler fin) envs m
    = (Normal, do_all apply fin (do_all apply (handler err) m')).
Proof.
  intros Hh Hf. unfold try_catch_finally.
  induction body as [ | e0 | a k IH | c IHc k IHk | R e k IH ];
    intros envs m m' err Hrun; simpl in *.
  - discriminate.
  - inversion Hrun; subst.
    rewrite run_finally_straight by apply Hh.
    apply run_straight, Hf.
  - apply IH, Hrun.
  - destruct (run apply c [] m) as [o m1]. apply IHk, Hrun.
  - destruct envs as [ | env rest ]; [ discriminate | ].
    apply IH, Hrun.
Qed.

(** When the body completes, only the [finally] block runs after it. *)
Lemma run_completed (body : proc A E) (handler : error -> proc A E) (fin : proc A E) :
  straight fin = true ->
  forall envs (m m' : machine A E St),
    run apply body envs m = (Normal, m') ->
    run apply (try_catch_finally body handler fin) envs m
    = (Normal, do_all apply fin m').
Proof.
  intros Hf. unfold try_catch_finally.
  induction body as [ | e0 | a k IH | c IHc k IHk | R e k IH ];
    intros envs m m' Hrun; simpl in *.
  - inversion Hrun; subst. apply run_straight, Hf.
  - discriminate.
  - apply IH, Hrun.
  - destruct (run apply c [] m) as [o m1]. apply IHk, Hrun.
  - destruct envs as [ | env rest ]; [ discriminate | ].
    apply IH, Hrun.
Qed.

(** ** Guarantees are met step by step *)

Lemma guarantees_weaken (G : St -> St -> Prop) (p : proc A E) :
  forall (post post' : St -> Prop) s,
    (forall x, post x -> post' x) ->
    guarantees apply G p post s -> guarantees apply G p post' s.
Proof.
  induction p as [ | err | a k IH | c IHc k IHk | R e k IH ];
    simpl; intros post post' s Himp H.
  - auto.
  - auto.
  - eapply IH; eauto.
  - eapply IHc; [ | exact H ]. intros x Hx. eapply IHk; eauto.
  - destruct H as [ H1 H2 ]. auto.
Qed.

Lemma unhandled_st o (m : machine A E St) : st (unhandled o m) = st m.
Proof. destruct o; reflexivity. Qed.

Lemma unhandled_pending o (m : machine A E St) :
  pending (unhandled o m) = pending m.
Proof. destruct o; reflexivity. Qed.

Lemma run_guarantees (G : St -> St -> Prop) (p : proc A E) :
  forall (post : St -> Prop) (m : machine A E St),
    guarantees apply G p post (st m) ->
    resumes_within apply G m ->
    post (st (snd (run apply p [] m))) /\
    resumes_within apply G (snd (run apply p [] m)).
Proof.
  induction p as [ | err | a k IH | c IHc k IHk | R e k IH ];
    simpl; intros post m Hg Hm.
  - auto.
  - auto.
  - apply IH; auto.
  - destruct (run apply c [] m) as [ o m1 ] eqn:Hc.
    destruct (IHc _ m Hg Hm) as [ H1 H2 ]. rewrite Hc in H1, H2.
    simpl in H1, H2.
    apply IHk.
    + rewrite unhandled_st. exact H1.
    + unfold resumes_within. rewrite unhandled_pending. exact H2.
  - destruct Hg as [ H1 H2 ]. split; auto.
    unfold resumes_within. simpl. apply Forall_app. split; auto.
Qed.

Lemma fire_guarantees (G : St -> St -> Prop) (p : proc A E)
      (post : St -> Prop) (m : machine A E St) :
  guarantees apply G p post (st m) ->
  resumes_within apply G m ->
  post (st (fire apply p m)) /\ resumes_within apply G (fire apply p m).
Proof.
  intros Hg Hm. unfold fire.
  destruct (run_guarantees G p post m Hg Hm) as [ H1 H2 ].
  destruct (run apply p [] m) as [ o m1 ]. simpl in *.
  unfold resumes_within. rewrite unhandled_st, unhandled_pending. auto.
Qed.

Lemma Forall_remove_nth {X : Type} (P : X -> Prop) (l : list X) :
  Forall P l -> forall i, Forall P (remove_nth i l).
Proof.
  induction 1 as [ | x t Hx Ht IH ]; intros i; destruct i; simpl; auto.
Qed.

(** A settled operation resumes into a run that meets [G], and leaves
    operations in flight that will again. *)
Lemma settle_guarantees (G : St -> St -> Prop) i env
      (m m' : machine A E St) :
  resumes_within apply G m ->
  settle apply i env m = Some m' ->
  G (st m) (st m') /\ resumes_within apply G m'.
Proof.
  intros Hm Hs. unfold settle in Hs.
  destruct (nth_error (pending m) i) as [ [ R e k ] | ] eqn:Hn;
    [ | discriminate ].
  inversion Hs; subst; clear Hs.
  assert (Hk : forall r s', guarantees apply G (k r) (G s') s').
  { unfold resumes_within in Hm. rewrite Forall_forall in Hm.
    apply (Hm (Pend R e k)). eapply nth_error_In; eauto. }
  apply (fire_guarantees G (k (env R e)) (G (st m))
           {| st := st m; log := log m;
              pending := remove_nth i (pending m) |}).
  - apply Hk.
  - unfold resumes_within. simpl. apply Forall_remove_nth. exact Hm.
Qed.

End Facts.

End AsyncFacts.

(* ================================================================== *)
(** * Facts about AIImageAnalysis *)
(* ================================================================== *)

Module AIImageAnalysisFacts.
Import Async AsyncFacts AIImageAnalysis.
Local Open Scope list_scope.

Lemma filter_map_app {X Y : Type} (f : X -> option Y) (l1 l2 : list X) :
  filter_map f (l1 ++ l2) = filter_map f l1 ++ filter_map f l2.
Proof.
  induction l1 as [ | x t IH ]; simpl; auto.
  destruct (f x); simpl; rewrite IH; reflexivity.
Qed.

Lemma snoc_split {X : Type} (l l1 l2 : list X) (x y : X) :
  l ++ [x] = l1 ++ y :: l2 ->
  (l2 = [] /\ l1 = l /\ y = x) \/
  (exists l2', l2 = l2' ++ [x] /\ l = l1 ++ y :: l2').
Proof.
  intros H. induction l2 as [ | z l2 _ ] using rev_ind.
  - left. apply app_inj_tail in H. destruct H; subst; auto.
  - right. exists l2.
    change (l1 ++ y :: l2 ++ [z]) with (l1 ++ (y :: l2) ++ [z]) in H.
    rewrite app_assoc in H. apply app_inj_tail in H.
    destruct H; subst; auto.
Qed.

Section Facts.
Variable num : Type.
Variable percent : option num -> string.

(** ** Reading the log *)

Lemma stage_after_app (l1 l2 : list (entry (action num) (request num))) :
  forall c, stage_after c (l1 ++ l2) = stage_after (stage_after c l1) l2.
Proof.
  induction l1 as [ | x t IH ]; intros c; simpl; auto.
  destruct x as [ a | R e | err ]; auto. destruct a; auto.
Qed.

Lemma after_alert_snoc (l : list (entry (action num) (request num))) x :
  after_alert (l ++ [x]) = is_alert x.
Proof. unfold after_alert. rewrite rev_unit. reflexivity. Qed.

Lemma legal_nil : legal_history (num := num) [].
Proof. intros l1 s l2 H. destruct l1; discriminate. Qed.

Lemma legal_snoc_stage (l : list (entry (action num) (request num))) s :
  legal_history l ->
  allowed (stage_after "idle" l) (after_alert l) s = true ->
  legal_history (l ++ [Did (setStage s)]).
Proof.
  intros Hl Ha l1 s' l2 Heq.
  apply snoc_split in Heq.
  destruct Heq as [ (-> & -> & Hy) | (l2' & -> & ->) ].
  - inversion Hy; subst. unfold allowed in Ha.
    apply orb_true_iff in Ha. destruct Ha as [ Ha | Ha ]; auto.
    apply andb_true_iff in Ha. destruct Ha as [ Ha1 Ha2 ].
    apply String.eqb_eq in Ha2. auto.
  - eapply Hl; reflexivity.
Qed.

Lemma legal_snoc_other (l : list (entry (action num) (request num))) x :
  legal_history l ->
  (forall s, x <> Did (setStage s)) ->
  legal_history (l ++ [x]).
Proof.
  intros Hl Hx l1 s' l2 Heq.
  apply snoc_split in Heq.
  destruct Heq as [ (-> & -> & Hy) | (l2' & -> & ->) ].
  - exfalso. eapply Hx. symmetry. exact Hy.
  - eapply Hl; reflexivity.
Qed.

Lemma alerts_did (a : action num) (w : world num) :
  alerts (did apply a w)
  = alerts w ++ match a with alert msg => [msg] | _ => [] end.
Proof.
  unfold alerts, did; simpl. rewrite filter_map_app; simpl.
  destruct a; reflexivity.
Qed.

Lemma alerts_sent {R : Type} (e : request num R) (w : world num) :
  alerts (sent e w) = alerts w.
Proof.
  unfold alerts, sent; simpl. rewrite filter_map_app; simpl.
  apply app_nil_r.
Qed.

(** ** Blocks of plain setters *)

Lemma tail_straight (t : process num) : tail t = true -> straight t = true.
Proof.
  induction t as [ | err | a k IH | c IHc k IHk | R e k IH ];
    simpl; intros H; try discriminate; auto.
  apply andb_true_iff in H. destruct H. auto.
Qed.

Lemma plain_stage (x : action num) (s : state num) :
  plain x = true -> stage (apply x s) = stage s.
Proof. destruct x; simpl; intros H; try discriminate; reflexivity. Qed.

Lemma plain_not_setStage (x : action num) :
  plain x = true ->
  forall s, Did (E := request num) x <> Did (setStage s).
Proof. intros H s Heq. inversion Heq; subst. discriminate. Qed.

Lemma plain_stage_after (x : action num) l c :
  plain x = true ->
  stage_after c (l ++ [Did (E := request num) x]) = stage_after c l.
Proof.
  intros H. rewrite stage_after_app. destruct x; simpl; try discriminate;
    reflexivity.
Qed.

Lemma do_all_tail (t : process num) :
  tail t = true ->
  forall m : world num,
    stage (st (do_all apply t m)) = stage (st m) /\
    pending (do_all apply t m) = pending m /\
    stage_after "idle" (log (do_all apply t m))
    = stage_after "idle" (log m) /\
    (legal_history (log m) -> legal_history (log (do_all apply t m))).
Proof.
  induction t as [ | err | a k IH | c IHc k IHk | R e k IH ];
    simpl; intros H m; try discriminate.
  - auto.
  - apply andb_true_iff in H. destruct H as [ Hp Ht ].
    destruct (IH Ht (did apply a m)) as (H1 & H2 & H3 & H4).
    rewrite H1, H2, H3. simpl.
    rewrite plain_stage, plain_stage_after by assumption.
    repeat split; auto.
    intros Hl. apply H4. simpl.
    apply legal_snoc_other; auto using plain_not_setStage.
Qed.

Lemma try_catch_tail (k : process num) handler :
  tail k = true -> try_catch k handler = k.
Proof.
  induction k as [ | err | a k IH | c IHc k IHk | R e k IH ];
    simpl; intros H; try discriminate; auto.
  apply andb_true_iff in H. destruct H. f_equal. auto.
Qed.

Lemma finally_tail (k fin : process num) :
  tail k = true -> tail fin = true -> tail (finally k fin) = true.
Proof.
  induction k as [ | err | a k IH | c IHc k IHk | R e k IH ];
    simpl; intros H Hf; try discriminate; auto.
  apply andb_true_iff in H. destruct H as [ Hp Ht ].
  rewrite Hp. simpl. auto.
Qed.

(** ** Disciplined processes keep the invariant *)

Lemma tail_disciplined (t : process num) :
  tail t = true -> forall c a, disciplined c a t.
Proof.
  induction t as [ | err | a k IH | c IHc k IHk | R e k IH ];
    simpl; intros H c0 a0; try discriminate.
  - constructor.
  - apply andb_true_iff in H. destruct H. apply d_plain; auto.
Qed.

Lemma tail_then_throw (t : process num) err :
  tail t = true -> forall c a, disciplined c a (seq t (Throw err)).
Proof.
  induction t as [ | err0 | a k IH | c IHc k IHk | R e k IH ];
    simpl; intros H c0 a0; try discriminate.
  - constructor.
  - apply andb_true_iff in H. destruct H. apply d_plain; auto.
Qed.

Lemma disciplined_try_catch c a (body : process num) handler :
  (forall c' a' err, disciplined c' a' (handler err)) ->
  disciplined c a body ->
  disciplined c a (try_catch body handler).
Proof.
  intros Hh H. induction H as
    [ c a | c a err | c a s k Ha Hk IH | c a msg k Hk IH
    | c a x k Hx Hk IH | c a R e k Hb Hk IH | c a q k Hq IH Ht ]; simpl.
  - constructor.
  - apply Hh.
  - apply d_setStage; auto.
  - apply d_alert; auto.
  - apply d_plain; auto.
  - apply d_Await; auto.
  - apply d_Call; auto. rewrite try_catch_tail; auto.
Qed.

Lemma disciplined_finally c a (body fin : process num) :
  tail fin = true ->
  disciplined c a body ->
  disciplined c a (finally body fin).
Proof.
  intros Hf H. induction H as
    [ c a | c a err | c a s k Ha Hk IH | c a msg k Hk IH
    | c a x k Hx Hk IH | c a R e k Hb Hk IH | c a q k Hq IH Ht ]; simpl.
  - apply tail_disciplined; auto.
  - apply tail_then_throw; auto.
  - apply d_setStage; auto.
  - apply d_alert; auto.
  - apply d_plain; auto.
  - apply d_Await; auto.
  - apply d_Call; auto. apply finally_tail; auto.
Qed.

Lemma allowed_weaken c a s :
  allowed c a s = true -> forall b, (a = true -> b = true) ->
  allowed c b s = true.
Proof.
  unfold allowed. intros H b Hab.
  destruct (advances c s); simpl in *; auto.
  destruct a; simpl in *; try discriminate. rewrite Hab; auto.
Qed.

Lemma allowed_known c a s : allowed c a s = true -> In s stages.
Proof.
  unfold allowed, advances, stages. intros H.
  repeat match type of H with
  | (_ || _ = true) => apply orb_true_iff in H; destruct H as [ H | H ]
  | (_ && _ = true) => apply andb_true_iff in H; destruct H as [ ? H ]
  end;
  apply String.eqb_eq in H; subst; simpl; auto 10.
Qed.

Lemma run_disciplined c a (p : process num) :
  disciplined c a p ->
  forall m : world num,
    stage (st m) = c ->
    stage_after "idle" (log m) = c ->
    (a = true -> after_alert (log m) = true) ->
    legal_history (log m) ->
    In c stages ->
    forall o m', run apply p [] m = (o, m') -> after_run m m'.
Proof.
  intros H. induction H as
    [ c a | c a err | c a s k Ha Hk IH | c a msg k Hk IH
    | c a x k Hx Hk IH | c a R e k Hb Hk IH | c a q k Hq IH Ht ];
    intros m Hs Hl Hal Hleg Hin o m' Hrun; simpl in Hrun.
  - inversion Hrun; subst. unfold after_run. rewrite Hl. auto.
  - inversion Hrun; subst. unfold after_run. rewrite Hl. auto.
  - eapply (IH (did apply (setStage s) m)) in Hrun; simpl; auto.
    + rewrite stage_after_app. reflexivity.
    + discriminate.
    + apply legal_snoc_stage; auto. rewrite Hl.
      eapply allowed_weaken; eauto.
    + eapply allowed_known; eauto.
  - eapply (IH (did apply (alert msg) m)) in Hrun; simpl; auto.
    + rewrite stage_after_app. simpl. auto.
    + intros _. apply after_alert_snoc.
    + apply legal_snoc_other; auto. intros s Heq; inversion Heq.
  - eapply (IH (did apply x m)) in Hrun; simpl; auto.
    + rewrite plain_stage; auto.
    + rewrite plain_stage_after; auto.
    + discriminate.
    + apply legal_snoc_other; auto using plain_not_setStage.
  - inversion Hrun; subst. unfold after_run; simpl.
    rewrite stage_after_app; simpl. rewrite Hl.
    repeat split; auto.
    + apply legal_snoc_other; auto. intros s Heq; inversion Heq.
    + right. exists R, e, k. auto.
  - destruct (run apply q [] m) as [ o1 m1 ] eqn:Hq1.
    specialize (IH m Hs Hl Hal Hleg Hin o1 m1 Hq1).
    rewrite (run_straight _ _ _ _ _ (tail_straight _ Ht)) in Hrun.
    inversion Hrun; subst. clear Hrun.
    destruct IH as (I1 & I2 & I3 & I4).
    destruct (do_all_tail k Ht (unhandled o1 m1)) as (T1 & T2 & T3 & T4).
    assert (U1 : stage (st (unhandled o1 m1)) = stage (st m1))
      by (destruct o1; reflexivity).
    assert (U2 : pending (unhandled o1 m1) = pending m1)
      by (destruct o1; reflexivity).
    assert (U3 : stage_after "idle" (log (unhandled o1 m1))
                 = stage_after "idle" (log m1)).
    { destruct o1; simpl; auto. rewrite stage_after_app. reflexivity. }
    assert (U4 : legal_history (log (unhandled o1 m1))).
    { destruct o1; simpl; auto. apply legal_snoc_other; auto.
      intros s Heq; inversion Heq. }
    unfold after_run. rewrite T1, T2, T3, U1, U2, U3.
    repeat split; auto.
Qed.

(** ** The handlers are disciplined *)

Lemma submit_catch_disciplined c a err :
  disciplined (num := num) c a (submit_catch err).
Proof.
  unfold submit_catch. apply d_alert. apply d_setStage; [ | constructor ].
  unfold allowed. simpl. apply orb_true_r.
Qed.

Lemma analyze_catch_disciplined c a err :
  disciplined (num := num) c a (analyze_catch err).
Proof.
  unfold analyze_catch. apply d_alert. apply d_setStage; [ | constructor ].
  unfold allowed. simpl. apply orb_true_r.
Qed.

Lemma submit_try_disciplined p s :
  disciplined "generating" false (submit_try percent p s).
Proof.
  unfold submit_try. destruct (stage1Result s) as [ r | ]; [ | constructor ].
  unfold await. apply d_Await; [ reflexivity | ].
  intros [ data | err ]; [ | constructor ].
  apply d_plain; [ reflexivity | ].
  apply d_setStage; [ reflexivity | ].
  destruct (top_predictions percent r) as [ preds | ]; [ | constructor ].
  apply d_Await; [ reflexivity | ].
  intros [ u | err ]; constructor.
Qed.

Lemma submit_disciplined c a p s :
  advances c "generating" = true ->
  disciplined c a (handleSubmitAnswers percent p s).
Proof.
  intros Hc. unfold handleSubmitAnswers, try_catch_finally.
  apply d_plain; [ reflexivity | ].
  apply d_setStage; [ unfold allowed; rewrite Hc; reflexivity | ].
  apply disciplined_finally; [ reflexivity | ].
  apply disciplined_try_catch.
  - intros; apply submit_catch_disciplined.
  - apply submit_try_disciplined.
Qed.

Lemma analyze_try_disciplined p s :
  disciplined "analyzing" false (analyze_try percent p s).
Proof.
  unfold analyze_try, await.
  apply d_Await; [ reflexivity | ]. intros [ imageResponse | err ];
    [ | constructor ].
  apply d_Await; [ reflexivity | ]. intros [ b | err ]; [ | constructor ].
  apply d_Await; [ reflexivity | ]. intros [ data | err ]; [ | constructor ].
  apply d_plain; [ reflexivity | ].
  destruct (no_questions data).
  - apply d_Call; [ | reflexivity ].
    apply submit_disciplined. reflexivity.
  - apply d_plain; [ reflexivity | ].
    apply d_setStage; [ reflexivity | constructor ].
Qed.

Lemma analyze_disciplined a p s :
  disciplined "idle" a (handleAnalyze percent p s).
Proof.
  unfold handleAnalyze, try_catch_finally.
  destruct (loading s); [ constructor | ].
  apply d_plain; [ reflexivity | ].
  apply d_setStage; [ reflexivity | ].
  apply disciplined_finally; [ reflexivity | ].
  apply disciplined_try_catch.
  - intros; apply analyze_catch_disciplined.
  - apply analyze_try_disciplined.
Qed.

Lemma change_disciplined c a (s : state num) v :
  disciplined c a (handleAnswerChange s v).
Proof.
  unfold handleAnswerChange. apply d_plain; [ reflexivity | constructor ].
Qed.

Lemma next_disciplined a p s :
  disciplined "questions" a (nextQuestion percent p s).
Proof.
  unfold nextQuestion.
  destruct (negb (truthy (array_get (answers s) (currentQ s)))).
  - apply d_alert. constructor.
  - destruct (stage1Result s) as [ r | ]; [ | constructor ].
    destruct (questions r) as [ qs | ]; [ | constructor ].
    destruct (Z.of_nat (currentQ s) <? Z.of_nat (List.length qs) - 1)%Z.
    + apply d_plain; [ reflexivity | constructor ].
    + apply d_Call; [ | reflexivity ].
      apply submit_disciplined. reflexivity.
Qed.

(** ** The invariant holds in every reachable world *)

Lemma invariant_start : invariant (num := num) start.
Proof.
  unfold invariant, start; simpl. repeat split; auto. apply legal_nil.
Qed.

Lemma fire_invariant c (p : process num) (m : world num) :
  disciplined c false p ->
  stage (st m) = c ->
  pending m = [] ->
  invariant m ->
  invariant (fire apply p m).
Proof.
  intros Hd Hs Hp (I1 & I2 & I3 & _).
  unfold fire. destruct (run apply p [] m) as [ o m' ] eqn:Hrun.
  assert (Hin : In c stages) by (rewrite <- Hs; exact I3).
  assert (Hl : stage_after "idle" (log m) = c) by congruence.
  assert (Hal : false = true -> after_alert (log m) = true)
    by discriminate.
  pose proof (run_disciplined c false p Hd m Hs Hl Hal I2 Hin o m' Hrun)
    as (R1 & R2 & R3 & R4).
  rewrite Hp in R4.
  assert (U : invariant m').
  { unfold invariant. repeat split; auto.
    destruct R4 as [ -> | (R & e & k & -> & Hb & Hk) ]; simpl; auto. }
  destruct o; simpl; auto.
  destruct U as (U1 & U2 & U3 & U4).
  unfold invariant; simpl. rewrite stage_after_app; simpl.
  repeat split; auto.
  apply legal_snoc_other; auto. intros s Heq; inversion Heq.
Qed.

Lemma invariant_quiet_stage (w : world num) :
  invariant w -> busy (stage (st w)) = false -> pending w = [].
Proof.
  intros (_ & _ & _ & I4) Hb.
  destruct (pending w) as [ | [ R e k ] [ | x t ] ]; auto.
  - destruct I4 as [ Hb' _ ]. congruence.
  - contradiction.
Qed.

Lemma step_invariant p ev (w w' : world num) :
  invariant w -> step percent p ev w = Some w' -> invariant w'.
Proof.
  intros Hi Hstep. destruct ev as [ | v | | i env ]; simpl in Hstep.
  - destruct (idle_card (st w)) eqn:Hc; [ | discriminate ].
    inversion Hstep; subst. unfold idle_card in Hc.
    apply String.eqb_eq in Hc.
    eapply fire_invariant; eauto using analyze_disciplined.
    apply invariant_quiet_stage; auto. rewrite Hc. reflexivity.
  - destruct (question_card (st w)) eqn:Hc; [ | discriminate ].
    inversion Hstep; subst. unfold question_card in Hc.
    apply andb_true_iff in Hc. destruct Hc as [ Hc _ ].
    apply String.eqb_eq in Hc.
    eapply fire_invariant; eauto using change_disciplined.
    apply invariant_quiet_stage; auto. rewrite Hc. reflexivity.
  - destruct (question_card (st w)) eqn:Hc; [ | discriminate ].
    inversion Hstep; subst. unfold question_card in Hc.
    apply andb_true_iff in Hc. destruct Hc as [ Hc _ ].
    apply String.eqb_eq in Hc.
    eapply fire_invariant; eauto using next_disciplined.
    apply invariant_quiet_stage; auto. rewrite Hc. reflexivity.
  - unfold settle in Hstep.
    destruct Hi as (I1 & I2 & I3 & I4).
    destruct (pending w) as [ | [ R e k ] [ | x t ] ] eqn:Hp.
    + destruct i; discriminate.
    + destruct i as [ | i ]; simpl in Hstep;
        [ | destruct i; discriminate ].
      inversion Hstep; subst. destruct I4 as [ Hb Hk ].
      eapply fire_invariant; simpl; eauto.
      unfold invariant; simpl. auto.
    + contradiction.
Qed.

Lemma reachable_invariant p (w : world num) :
  reachable percent p w -> invariant w.
Proof.
  induction 1 as [ | w ev w' Hr IH Hstep ].
  - apply invariant_start.
  - eapply step_invariant; eauto.
Qed.

Lemma steps_reachable p evs :
  forall w w' : world num,
    reachable percent p w -> steps percent p evs w = Some w' ->
    reachable percent p w'.
Proof.
  induction evs as [ | ev rest IH ]; simpl; intros w w' Hr Hs.
  - inversion Hs; subst; auto.
  - destruct (step percent p ev w) as [ w1 | ] eqn:H1; [ | discriminate ].
    eapply IH; [ | exact Hs ]. eapply reach_step; eauto.
Qed.

(** ** The stage flag *)

(** C3: in every reachable world the stage flag holds one of the five
    values idle, analyzing, questions, generating, report; it is the value
    of the last assignment in the log (idle before any); and every
    assignment made to it, by a user action or by the continuation of a
    network call, either advances one step along idle, analyzing,
    questions, generating, report (where questions may be skipped) or,
    right after an alert, resets it to idle. *)
Theorem stage_flag_machine p (w : world num) :
  reachable percent p w ->
  In (stage (st w)) stages /\
  stage (st w) = stage_after "idle" (log w) /\
  forall l1 s l2,
    log w = l1 ++ Did (setStage s) :: l2 ->
    In s stages /\
    (advances (stage_after "idle" l1) s = true \/
     (s = "idle" /\ after_alert l1 = true)).
Proof.
  intros Hr. apply reachable_invariant in Hr.
  destruct Hr as (I1 & I2 & I3 & _).
  repeat split; auto.
  - destruct (I2 l1 s l2 H) as [ Ha | [ -> _ ] ].
    + apply (allowed_known (stage_after "idle" l1) false).
      unfold allowed. rewrite Ha. reflexivity.
    + simpl; auto.
  - apply (I2 l1 s l2 H).
Qed.

(** ** Requests in flight *)

(** C6: in every reachable world at most one request is in flight, and
    while one is in flight neither the Analyze button nor the question
    card is on screen, so that no handler can start another; and
    [handleAnalyze] invoked by a render that saw [loading] true returns at
    once, starting no request and changing nothing. *)
Theorem one_request_in_flight p (w : world num) :
  reachable percent p w ->
  List.length (pending w) <= 1 /\
  (pending w <> [] ->
   idle_card (st w) = false /\ question_card (st w) = false) /\
  (forall (s : state num) (w0 : world num),
      loading s = true ->
      fire apply (handleAnalyze percent p s) w0 = w0).
Proof.
  intros Hr. apply reachable_invariant in Hr.
  destruct Hr as (_ & _ & _ & I4).
  repeat split.
  - destruct (pending w) as [ | [ R e k ] [ | y t ] ]; simpl; auto.
    contradiction.
  - destruct (pending w) as [ | [ R e k ] [ | y t ] ];
      [ congruence | | contradiction ].
    destruct I4 as [ Hb _ ]. unfold idle_card, busy in *.
    destruct (stage (st w) =? "idle")%string eqn:E; auto.
    apply String.eqb_eq in E. rewrite E in Hb. discriminate.
  - destruct (pending w) as [ | [ R e k ] [ | y t ] ];
      [ congruence | | contradiction ].
    destruct I4 as [ Hb _ ]. unfold question_card, busy in *.
    destruct (stage (st w) =? "questions")%string eqn:E; auto.
    apply String.eqb_eq in E. rewrite E in Hb. discriminate.
  - intros s w0 Hl. unfold fire, handleAnalyze. rewrite Hl. simpl.
    reflexivity.
Qed.

(** ** Failures *)

Lemma alerts_park {R : Type} (e : request num R) k (w : world num) :
  alerts (park e k w) = alerts w.
Proof. reflexivity. Qed.

Lemma alerts_unhandled o (w : world num) : alerts (unhandled o w) = alerts w.
Proof.
  destruct o; auto. unfold alerts; simpl. rewrite filter_map_app; simpl.
  apply app_nil_r.
Qed.

Ltac close_alerts :=
  let H := fresh "H" in
  intros H; inversion H; subst; clear H;
  repeat (rewrite alerts_park || rewrite alerts_sent ||
          rewrite alerts_did || rewrite alerts_unhandled);
  simpl; rewrite ?app_nil_r; reflexivity.

(** The [try] block of [handleSubmitAnswers] shows no alert of its own. *)
Lemma submit_try_alerts p s envs (w w' : world num) o :
  run apply (submit_try percent p s) envs w = (o, w') ->
  alerts w' = alerts w.
Proof.
  unfold submit_try, await.
  destruct (stage1Result s) as [ r | ]; simpl; [ | close_alerts ].
  destruct envs as [ | e1 rest ]; simpl; [ close_alerts | ].
  destruct (e1 _ _) as [ data | err ]; simpl; [ | close_alerts ].
  destruct (top_predictions percent r) as [ preds | ]; simpl;
    [ | close_alerts ].
  destruct rest as [ | e2 rest ]; simpl; [ close_alerts | ].
  destruct (e2 _ _) as [ u | err ]; simpl; close_alerts.
Qed.

(** The [try] block of [handleAnalyze] shows no alert before it throws. *)
Lemma analyze_try_alerts p s envs (w w' : world num) err :
  run apply (analyze_try percent p s) envs w = (Thrown err, w') ->
  alerts w' = alerts w.
Proof.
  unfold analyze_try, await. simpl.
  destruct envs as [ | e1 rest ]; simpl; [ discriminate | ].
  destruct (e1 _ _) as [ imageResponse | err1 ]; simpl; [ | close_alerts ].
  destruct rest as [ | e2 rest ]; simpl; [ discriminate | ].
  destruct (e2 _ _) as [ b | err2 ]; simpl; [ | close_alerts ].
  destruct rest as [ | e3 rest ]; simpl; [ discriminate | ].
  destruct (e3 _ _) as [ data | err3 ]; simpl; [ | close_alerts ].
  destruct (no_questions data); simpl.
  - match goal with
    | |- context [ run apply ?q [] ?m ] => destruct (run apply q [] m)
    end.
    discriminate.
  - discriminate.
Qed.


(** ** The requests of [handleSubmitAnswers] *)

Ltac read_posts :=
  unfold stage2_posts, save_posts; simpl;
  repeat (rewrite filter_map_app; simpl);
  rewrite ?app_nil_r; try reflexivity.

Lemma stage2_posts_unhandled o (w : world num) :
  stage2_posts (unhandled o w) = stage2_posts w.
Proof. destruct o; auto. read_posts. Qed.

(** Whatever the responses, [handleSubmitAnswers] run by a render that saw
    the state [s] posts once to [/api/{conditionType}_stage2], and the body
    is the fields [top3_classes], [top3_probs], [rag_summary] and
    [questions] of the stage-1 result that render saw, unchanged, with the
    answers of [s] and the props [patientRef] and [imageUrl]; when that
    render saw no stage-1 result it posts nothing.  A click on the button
    of the question card posts nothing to stage 2 or is such a run on the
    state on screen. *)
Lemma submission_posts_what_its_render_saw p :
  (forall s envs (w : world num),
      stage2_posts (snd (run apply (handleSubmitAnswers percent p s) envs w))
      = stage2_posts w ++
        match stage1Result s with
        | Some r =>
            [ (("http://localhost:5001/api/" ++ conditionType p
                  ++ "_stage2")%string,
               {| payload_top3_classes := top3_classes r;
                  payload_top3_probs := top3_probs r;
                  payload_rag_summary := rag_summary r;
                  payload_questions := questions r;
                  payload_answers := answers s;
                  patient_ref := patientRef p;
                  image_url := imageUrl p |}) ]
        | None => []
        end) /\
  (forall w w' : world num,
      step percent p ClickNext w = Some w' ->
      stage2_posts w' = stage2_posts w \/
      stage2_posts w'
      = stage2_posts
          (snd (run apply (handleSubmitAnswers percent p (st w)) [] w))).
Proof.
  split.
  - intros s envs w.
    unfold handleSubmitAnswers, try_catch_finally, submit_try, await.
    destruct (stage1Result s) as [ r | ]; [ | read_posts ].
    destruct envs as [ | e1 rest ]; [ read_posts | ].
    simpl. destruct (e1 _ _) as [ data | err ]; [ | read_posts ].
    simpl. destruct (top_predictions percent r) as [ preds | ];
      [ | read_posts ].
    destruct rest as [ | e2 rest ]; [ read_posts | ].
    simpl. destruct (e2 _ _) as [ u | err ]; read_posts.
  - intros w w' Hstep. simpl in Hstep.
    destruct (question_card (st w)); [ | discriminate ].
    inversion Hstep; subst; clear Hstep. unfold nextQuestion.
    destruct (negb (truthy (array_get (answers (st w)) (currentQ (st w)))));
      [ left; read_posts | ].
    destruct (stage1Result (st w)) as [ r | ]; [ | left; read_posts ].
    destruct (questions r) as [ qs | ]; [ | left; read_posts ].
    destruct (Z.of_nat (currentQ (st w)) <? Z.of_nat (List.length qs) - 1)%Z;
      [ left; read_posts | ].
    right. unfold fire. simpl.
    match goal with
    | |- context [ run apply ?q [] ?m ] =>
        destruct (run apply q [] m) as [ o1 m1 ]
    end.
    simpl. apply stage2_posts_unhandled.
Qed.

Lemma top_predictions_some (r : stage1_data num) cs ps :
  top3_classes r = Some cs ->
  top3_probs r = Some ps ->
  top_predictions percent r
  = Some (mapi_from
            (fun i cls =>
               {| name := cls; confidence := percent (nth_error ps i) |})
            0 cs).
Proof.
  intros Hc Hp. unfold top_predictions. rewrite Hc, Hp.
  destruct cs; reflexivity.
Qed.

Lemma mapi_from_names (f : nat -> string -> string) (cs : list string) :
  forall i,
    map name (mapi_from (fun i cls => {| name := cls; confidence := f i cls |})
                        i cs)
    = cs.
Proof.
  induction cs as [ | c t IH ]; intros i; simpl; [ | rewrite IH ];
    reflexivity.
Qed.


(** ** Stage 1 without questions *)

(** C1, as the code has it: on the first analysis after mounting, when the
    image is fetched and the stage-1 call is fulfilled with a result whose
    [questions] is missing or empty, the component ends in stage idle with
    the alert of [handleSubmitAnswers]; no stage-2 call is made and no
    report is stored.  The closure of [handleSubmitAnswers] reads the
    [stage1Result] of the render of the click, which is still [null]. *)
Theorem zero_questions_first_analysis p (e1 e2 e3 : oracle (request num))
        imageResponse b data :
  e1 _ (fetch (imageUrl p)) = Fulfilled imageResponse ->
  e2 _ (blob imageResponse) = Fulfilled b ->
  e3 _ (axios_post_form (stage1_url p) [("image", b, "patient_image.jpg")])
  = Fulfilled data ->
  no_questions data = true ->
  exists w : world num,
    steps percent p [ClickAnalyze; Settle 0 e1; Settle 0 e2; Settle 0 e3] start
    = Some w /\
    stage (st w) = "idle" /\
    alerts w = ["Error generating or saving report."] /\
    stage2_posts w = [] /\
    finalReport (st w) = None /\
    pending w = [].
Proof.
  intros H1 H2 H3 Hq.
  unfold steps, step, start. simpl.
  unfold settle, fire. simpl. rewrite H1. simpl.
  rewrite H2. simpl. rewrite H3. simpl. rewrite Hq. simpl.
  eexists. split; [ reflexivity | ]. simpl.
  repeat split; reflexivity.
Qed.

(** ** Answers *)

(** [nextQuestion] on an empty answer only alerts: the state, and with it
    [currentQ] and the stage, stays as it is and nothing is sent. *)
Lemma next_question_requires_answer p (w : world num) :
  truthy (array_get (answers (st w)) (currentQ (st w))) = false ->
  fire apply (nextQuestion percent p (st w)) w
  = {| st := st w;
       log := log w ++ [Did (alert "Please answer this question.")];
       pending := pending w |}.
Proof.
  intros H. unfold nextQuestion. rewrite H. reflexivity.
Qed.
End Facts.


(** ** The scenarios *)

Lemma after_reachable evs w :
  steps Scenario.percent Scenario.wound evs start = Some w ->
  reachable Scenario.percent Scenario.wound w.
Proof.
  intros H. eapply steps_reachable; [ apply reach_start | exact H ].
Qed.

Lemma stage_flag_machine_witness :
  let w := Scenario.after [ClickAnalyze; Settle 0 Scenario.offline] in
  let l1 := [ Did (setLoading true); Did (setStage "analyzing");
              Sent Response (fetch "/uploads/wound.jpg");
              Did (alert "Error analyzing image. Check AI backend logs.") ] in
  let l2 := [ Did (setLoading (num := nat) false) ] in
  reachable Scenario.percent Scenario.wound w /\
  log w = l1 ++ Did (setStage "idle") :: l2 /\
  In (stage (st w)) stages /\
  stage (st w) = stage_after "idle" (log w) /\
  In "idle" stages /\
  (advances (stage_after "idle" l1) "idle" = true \/
   ("idle" = "idle" /\ after_alert l1 = true)).
Proof.
  cbv zeta.
  assert (Hr : reachable Scenario.percent Scenario.wound
                 (Scenario.after [ClickAnalyze; Settle 0 Scenario.offline]))
    by (apply (after_reachable [ClickAnalyze; Settle 0 Scenario.offline]);
        reflexivity).
  destruct (stage_flag_machine nat Scenario.percent Scenario.wound _ Hr)
    as (H1 & H2 & H3).
  split; [ exact Hr | ].
  split; [ reflexivity | ].
  split; [ exact H1 | ].
  split; [ exact H2 | ].
  exact (H3 [ Did (setLoading true); Did (setStage "analyzing");
              Sent Response (fetch "/uploads/wound.jpg");
              Did (alert "Error analyzing image. Check AI backend logs.") ]
            "idle" [ Did (setLoading false) ] eq_refl).
Defined.

Lemma one_request_in_flight_witness :
  let w := Scenario.after [ClickAnalyze] in
  reachable Scenario.percent Scenario.wound w /\
  List.length (pending w) <= 1 /\
  pending w <> [] /\
  idle_card (st w) = false /\
  question_card (st w) = false /\
  loading (st w) = true /\
  fire apply (handleAnalyze Scenario.percent Scenario.wound (st w)) w = w.
Proof.
  cbv zeta.
  assert (Hr : reachable Scenario.percent Scenario.wound
                         (Scenario.after [ClickAnalyze]))
    by (apply (after_reachable [ClickAnalyze]); reflexivity).
  assert (Hp : pending (Scenario.after [ClickAnalyze]) <> [])
    by discriminate.
  destruct (one_request_in_flight nat Scenario.percent Scenario.wound _ Hr)
    as (H1 & H2 & H3).
  split; [ exact Hr | ].
  split; [ exact H1 | ].
  split; [ exact Hp | ].
  split; [ exact (proj1 (H2 Hp)) | ].
  split; [ exact (proj2 (H2 Hp)) | ].
  split; [ reflexivity | ].
  exact (H3 (st (Scenario.after [ClickAnalyze]))
            (Scenario.after [ClickAnalyze]) eq_refl).
Defined.



Lemma zero_questions_first_analysis_witness :
  let env := Scenario.succeed (Scenario.classified (Some [])) (Some "Burn.") in
  (env _ (fetch "/uploads/wound.jpg") = Fulfilled (HttpResponse "jpeg") /\
   env _ (blob (HttpResponse "jpeg")) = Fulfilled (BlobOf "jpeg") /\
   env _ (axios_post_form (stage1_url Scenario.wound)
                          [("image", BlobOf "jpeg", "patient_image.jpg")])
   = Fulfilled (Scenario.classified (Some [])) /\
   no_questions (Scenario.classified (Some [])) = true) /\
  exists w : world nat,
    steps Scenario.percent Scenario.wound Scenario.no_question_analysis start
    = Some w /\
    stage (st w) = "idle" /\
    alerts w = ["Error generating or saving report."] /\
    stage2_posts w = [] /\
    finalReport (st w) = None /\
    pending w = [].
Proof.
  cbv zeta. split.
  - repeat split; reflexivity.
  - exact (zero_questions_first_analysis nat Scenario.percent Scenario.wound
             _ _ _ (HttpResponse "jpeg") (BlobOf "jpeg")
             (Scenario.classified (Some []))
             eq_refl eq_refl eq_refl eq_refl).
Defined.

(** C9, as the code has it: [currentQ] is never reset.  After a first pass
    through three questions whose stage-2 call fails, a second analysis
    blanks the three answers and shows the third question at once; its
    answer is validated and the submission carries two empty answers. *)
Theorem reanalysis_submits_unanswered_questions :
  option_map
    (fun w : world nat =>
       (stage (st w), currentQ (st w),
        map (fun post => payload_answers (snd post)) (stage2_posts w)))
    (steps Scenario.percent Scenario.wound Scenario.second_analysis start)
  = Some ("generating", 2,
          [ [Some "two days"; Some "none"; Some "no"];
            [Some ""; Some ""; Some "no"] ]).
Proof. vm_compute. reflexivity. Qed.

(* ------------------------------------------------------------------ *)
(** ** More about the wizard *)

Section Guarantees.
Variable num : Type.
Variable percent : option num -> string.

Lemma step_resumes G p ev (w w' : world num) :
  handlers_guarantee percent G p ->
  resumes_within apply G w ->
  step percent p ev w = Some w' ->
  G (st w) (st w') /\ resumes_within apply G w'.
Proof.
  intros (Ha & Hc & Hn) Hw Hstep.
  destruct ev as [ | v | | i env ]; simpl in Hstep.
  - destruct (idle_card (st w)) eqn:E; [ | discriminate ].
    inversion Hstep; subst.
    apply (fire_guarantees _ _ _ apply G); auto.
  - destruct (question_card (st w)) eqn:E; [ | discriminate ].
    inversion Hstep; subst.
    apply (fire_guarantees _ _ _ apply G); auto.
  - destruct (question_card (st w)) eqn:E; [ | discriminate ].
    inversion Hstep; subst.
    apply (fire_guarantees _ _ _ apply G); auto.
  - eapply settle_guarantees; eauto.
Qed.

Lemma reachable_resumes G p (w : world num) :
  handlers_guarantee percent G p ->
  reachable percent p w ->
  resumes_within apply G w.
Proof.
  intros HG Hr. induction Hr as [ | w ev w' Hr IH Hstep ].
  - constructor.
  - eapply step_resumes; eauto.
Qed.

(** What the handlers guarantee holds of every step of a reachable
    world. *)
Lemma step_guarantee G p ev (w w' : world num) :
  handlers_guarantee percent G p ->
  reachable percent p w ->
  step percent p ev w = Some w' ->
  G (st w) (st w').
Proof.
  intros HG Hr Hstep.
  eapply step_resumes; eauto using reachable_resumes.
Qed.

(** A property of the state that the handlers keep holds in every
    reachable world. *)
Lemma reachable_keeps (I : state num -> Prop) p (w : world num) :
  I initial ->
  handlers_guarantee percent (fun s s' => I s -> I s') p ->
  reachable percent p w ->
  I (st w).
Proof.
  intros H0 HG Hr. induction Hr as [ | w ev w' Hr IH Hstep ].
  - exact H0.
  - eapply (step_guarantee (fun s s' => I s -> I s')); eauto.
Qed.

Ltac crunch :=
  repeat (try unfold handleSubmitAnswers, submit_try, submit_catch,
            analyze_catch, try_catch_finally, await;
          simpl in *; intros;
          match goal with
          | |- _ /\ _ => split
          | r : settled _ |- _ => destruct r
          | |- context [ if ?b then _ else _ ] => destruct b eqn:?
          | |- context [ match ?x with _ => _ end ] => destruct x eqn:?
          end).

(** *** The question index *)

Lemma handlers_move_currentQ p :
  handlers_guarantee percent
    (fun s s' => currentQ s <= currentQ s' <= currentQ s + 1) p.
Proof.
  unfold handlers_guarantee, handleAnalyze, handleAnswerChange, nextQuestion,
    handleSubmitAnswers, analyze_try, submit_try, try_catch_finally, await.
  repeat split; intros; crunch; simpl; lia.
Qed.

(** From a reachable world on, the index [currentQ] of the question on
    screen never decreases, whatever happens: each event leaves it or
    adds one, and nothing resets it, a new analysis included. *)
Theorem currentQ_never_decreases p evs :
  forall w w' : world num,
    reachable percent p w ->
    steps percent p evs w = Some w' ->
    currentQ (st w) <= currentQ (st w') <= currentQ (st w) + List.length evs.
Proof.
  induction evs as [ | ev rest IH ]; simpl; intros w w' Hr Hs.
  - inversion Hs; subst. lia.
  - destruct (step percent p ev w) as [ w1 | ] eqn:H1; [ | discriminate ].
    pose proof (step_guarantee _ p ev w w1 (handlers_move_currentQ p) Hr H1)
      as Hq.
    simpl in Hq.
    assert (Hr1 : reachable percent p w1) by (eapply reach_step; eauto).
    specialize (IH w1 w' Hr1 Hs). lia.
Qed.


(** *** The loading flag *)

Lemma handlers_keep_settled p :
  handlers_guarantee percent
    (fun s s' => settled_when_interactive s -> settled_when_interactive s') p.
Proof.
  unfold handlers_guarantee, handleAnalyze, handleAnswerChange, nextQuestion,
    handleSubmitAnswers, analyze_try, submit_try, try_catch_finally, await.
  repeat split; intros; crunch;
    unfold settled_when_interactive in *; simpl in *;
    intuition (try discriminate; auto).
Qed.

(** Whenever the Analyze button or the question card is on screen,
    [loading] is false: the button is never shown disabled, and a click on
    it passes the guard of [handleAnalyze] and starts the fetch of the
    image, the only request then in flight. *)
Theorem interactive_means_not_loading p (w : world num) :
  reachable percent p w ->
  (question_card (st w) = true -> loading (st w) = false) /\
  (idle_card (st w) = true ->
   loading (st w) = false /\
   exists w' k,
     step percent p ClickAnalyze w = Some w' /\
     pending w' = [Pend Response (fetch (imageUrl p)) k] /\
     stage (st w') = "analyzing"%string /\
     loading (st w') = true).
Proof.
  intros Hr.
  assert (HI : settled_when_interactive (st w)).
  { apply (reachable_keeps settled_when_interactive p w); auto.
    - intros _. reflexivity.
    - apply handlers_keep_settled. }
  split.
  - intros Hc. unfold question_card in Hc. apply andb_true_iff in Hc.
    destruct Hc as [ Hc _ ]. apply String.eqb_eq in Hc. apply HI. auto.
  - intros Hc. assert (Hi := Hc). unfold idle_card in Hi.
    apply String.eqb_eq in Hi.
    assert (Hl : loading (st w) = false) by (apply HI; auto).
    split; [ exact Hl | ].
    assert (Hp : pending w = []).
    { apply invariant_quiet_stage.
      - eapply reachable_invariant; eauto.
      - rewrite Hi. reflexivity. }
    simpl. rewrite Hc. unfold fire, handleAnalyze. rewrite Hl. simpl.
    eexists. eexists.
    split; [ reflexivity | ]. simpl. rewrite Hp. repeat split.
Qed.

(** *** The report card *)

Lemma or_else_truthy v d : (d =? "")%string = false ->
                           truthy (Some (or_else v d)) = true.
Proof.
  intros Hd. unfold or_else, truthy.
  destruct v as [ t | ]; [ destruct (t =? "")%string eqn:E | ];
    rewrite ?Hd, ?E; reflexivity.
Qed.

Lemma handlers_keep_report p :
  handlers_guarantee percent
    (fun s s' => report_is_stored s -> report_is_stored s') p.
Proof.
  unfold handlers_guarantee, handleAnalyze, handleAnswerChange, nextQuestion,
    handleSubmitAnswers, analyze_try, submit_try, try_catch_finally, await.
  repeat split; intros;
    repeat (try unfold handleSubmitAnswers, submit_try, submit_catch,
              analyze_catch, try_catch_finally, await;
            cbn -[or_else] in *; intros;
            match goal with
            | |- _ /\ _ => split
            | r : settled _ |- _ => destruct r
            | |- context [ if ?b then _ else _ ] => destruct b eqn:?
            | |- context [ match ?x with _ => _ end ] => destruct x eqn:?
            end);
    unfold report_is_stored in *; cbn -[or_else] in *;
    intros; try discriminate; auto;
    apply (or_else_truthy _ "No detailed AI report available." eq_refl).
Qed.


(** *** The question card *)

Lemma no_questions_false (d : stage1_data num) :
  no_questions d = false -> exists q qs, questions d = Some (q :: qs).
Proof.
  unfold no_questions. destruct (questions d) as [ [ | q qs ] | ];
    try discriminate. eauto.
Qed.

Lemma handlers_keep_questions p :
  handlers_guarantee percent
    (fun s s' => questions_are_stored s -> questions_are_stored s') p.
Proof.
  unfold handlers_guarantee, handleAnalyze, handleAnswerChange, nextQuestion,
    handleSubmitAnswers, analyze_try, submit_try, try_catch_finally, await.
  repeat split; intros; crunch;
    unfold questions_are_stored in *; simpl in *;
    intros; try discriminate; auto.
  match goal with
  | H : no_questions ?d = false |- _ =>
      destruct (no_questions_false d H) as (q & qs & Hq)
  end.
  eauto.
Qed.

(** While the question card is on screen the stored stage-1 result holds
    a non-empty [questions] array, so a click on its button never raises an
    error: it alerts, moves to the next question or submits. *)
Theorem question_card_has_questions p (w : world num) :
  reachable percent p w ->
  question_card (st w) = true ->
  (exists r q qs,
      stage1Result (st w) = Some r /\ questions r = Some (q :: qs)) /\
  result (nextQuestion percent p (st w)) [] = Normal.
Proof.
  intros Hr Hc.
  assert (HI : questions_are_stored (st w)).
  { apply (reachable_keeps questions_are_stored p w); auto.
    - discriminate.
    - apply handlers_keep_questions. }
  unfold question_card in Hc. apply andb_true_iff in Hc.
  destruct Hc as [ Hc _ ]. apply String.eqb_eq in Hc.
  destruct (HI Hc) as (r & q & qs & H1 & H2).
  split; [ eauto | ].
  unfold nextQuestion. rewrite H1, H2.
  destruct (negb (truthy (array_get (answers (st w)) (currentQ (st w)))));
    [ reflexivity | ].
  destruct (Z.of_nat (currentQ (st w)) <? Z.of_nat (List.length (q :: qs)) - 1)%Z;
    reflexivity.
Qed.

(** *** Typing an answer *)

Lemma array_get_set_same {X : Type} (a : list (option X)) v :
  forall i, array_get (array_set a i v) i = Some v.
Proof.
  unfold array_get.
  induction a as [ | x t IH ]; intros i.
  - induction i as [ | i IHi ]; simpl; auto.
  - destruct i as [ | i ]; simpl; auto.
Qed.

Lemma array_get_set_other {X : Type} (a : list (option X)) v :
  forall i j, j <> i -> array_get (array_set a i v) j = array_get a j.
Proof.
  unfold array_get.
  induction a as [ | x t IH ]; intros i.
  - induction i as [ | i IHi ]; intros j Hj.
    + destruct j as [ | j ]; [ congruence | ]. simpl. destruct j; reflexivity.
    + destruct j as [ | j ]; simpl; [ reflexivity | ].
      rewrite IHi by congruence. destruct j; reflexivity.
  - intros j Hj. destruct i as [ | i ]; destruct j as [ | j ]; simpl;
      try congruence; auto.
Qed.

Lemma array_set_length {X : Type} (a : list (option X)) v :
  forall i, List.length (array_set a i v) = Nat.max (List.length a) (i + 1).
Proof.
  induction a as [ | x t IH ]; intros i.
  - induction i as [ | i IHi ]; simpl in *; [ reflexivity | ].
    rewrite IHi. lia.
  - destruct i as [ | i ]; simpl; [ lia | ]. rewrite IH. lia.
Qed.

(** Typing into the input stores the text as the answer to the question on
    screen and leaves every other answer, and the rest of the state, as it
    was; the array grows only when [currentQ] lies past its end.  Nothing
    is sent and nothing is alerted. *)
Theorem answer_change_writes_current_answer (w : world num) value :
  let w' := fire apply (handleAnswerChange (st w) value) w in
  array_get (answers (st w')) (currentQ (st w)) = Some value /\
  (forall j, j <> currentQ (st w) ->
             array_get (answers (st w')) j = array_get (answers (st w)) j) /\
  List.length (answers (st w'))
  = Nat.max (List.length (answers (st w))) (currentQ (st w) + 1) /\
  (stage (st w'), loading (st w'), stage1Result (st w'), currentQ (st w'),
   finalReport (st w'))
  = (stage (st w), loading (st w), stage1Result (st w), currentQ (st w),
     finalReport (st w)) /\
  pending w' = pending w /\
  alerts w' = alerts w.
Proof.
  cbv zeta. unfold fire, handleAnswerChange. simpl.
  repeat split.
  - apply array_get_set_same.
  - intros j Hj. apply array_get_set_other. exact Hj.
  - apply array_set_length.
  - unfold alerts. simpl. rewrite filter_map_app. simpl. apply app_nil_r.
Qed.

(** *** The requests of [handleAnalyze] *)

Ltac read_calls :=
  unfold fetches, stage1_posts, stage2_posts, save_posts; simpl;
  repeat (rewrite filter_map_app; simpl);
  rewrite ?app_nil_r; try reflexivity.

Lemma calls_unhandled o (w : world num) :
  fetches (unhandled o w) = fetches w /\
  stage1_posts (unhandled o w) = stage1_posts w.
Proof. destruct o; split; auto; read_calls. Qed.

Lemma submit_makes_no_stage1_call p s envs (w : world num) :
  fetches (snd (run apply (handleSubmitAnswers percent p s) envs w))
  = fetches w /\
  stage1_posts (snd (run apply (handleSubmitAnswers percent p s) envs w))
  = stage1_posts w.
Proof.
  unfold handleSubmitAnswers, try_catch_finally, submit_try, await.
  destruct (stage1Result s) as [ r | ]; [ | split; read_calls ].
  destruct envs as [ | e1 rest ]; [ split; read_calls | ].
  simpl. destruct (e1 _ _) as [ data | err ]; [ | split; read_calls ].
  simpl. destruct (top_predictions percent r) as [ preds | ];
    [ | split; read_calls ].
  destruct rest as [ | e2 rest ]; [ split; read_calls | ].
  simpl. destruct (e2 _ _) as [ u | err ]; split; read_calls.
Qed.

(** [handleAnalyze], past its guard, fetches the image at [imageUrl] once,
    and posts to the AI backend only when the fetch and the reading of the
    body have both succeeded: then once, to
    [/api/{conditionType}_stage1], a form with the single field [image]
    holding the blob read, under the file name [patient_image.jpg].  When
    the fetch or the reading fails the backend is not called. *)
Theorem stage1_request_body p s envs (w : world num) :
  loading s = false ->
  let w' := snd (run apply (handleAnalyze percent p s) envs w) in
  fetches w' = fetches w ++ [imageUrl p] /\
  stage1_posts w'
  = stage1_posts w ++
    match envs with
    | e1 :: e2 :: _ =>
        match e1 _ (fetch (imageUrl p)) with
        | Fulfilled imageResponse =>
            match e2 _ (blob imageResponse) with
            | Fulfilled b =>
                [ (("http://localhost:5001/api/" ++ conditionType p
                      ++ "_stage1")%string,
                   [("image"%string, b, "patient_image.jpg"%string)]) ]
            | Rejected _ => []
            end
        | Rejected _ => []
        end
    | _ => []
    end.
Proof.
  intros Hl. cbv zeta.
  unfold handleAnalyze, try_catch_finally, analyze_try, await. rewrite Hl.
  destruct envs as [ | e1 rest ]; [ split; read_calls | ].
  simpl. destruct (e1 _ _) as [ imageResponse | err ];
    [ | destruct rest; split; read_calls ].
  destruct rest as [ | e2 rest ]; [ split; read_calls | ].
  simpl. destruct (e2 _ _) as [ b | err ]; [ | split; read_calls ].
  destruct rest as [ | e3 rest ]; [ split; read_calls | ].
  simpl. destruct (e3 _ _) as [ data | err ]; [ | split; read_calls ].
  destruct (no_questions data); [ | split; read_calls ].
  cbn -[handleSubmitAnswers].
  match goal with
  | |- context [ run apply (handleSubmitAnswers percent p s) [] ?m ] =>
      pose proof (submit_makes_no_stage1_call p s [] m) as [ H1 H2 ];
      destruct (run apply (handleSubmitAnswers percent p s) [] m)
        as [ o m1 ]
  end.
  cbn -[handleSubmitAnswers] in *.
  destruct (calls_unhandled o m1) as [ U1 U2 ].
  unfold fetches, stage1_posts in *. simpl.
  rewrite !filter_map_app. simpl. rewrite !app_nil_r.
  rewrite U1, U2, H1, H2.
  split; read_calls.
Qed.

(** *** How a submission ends *)


(** When the stage-2 response carries no final report, or an empty one,
    the screen shows "No detailed AI report available." while the record
    sent to be saved carries the report as it came, missing or empty: the
    fallback text is never persisted. *)
Theorem fallback_report_is_not_saved p s r preds (e1 : oracle (request num))
        envs data (w : world num) :
  stage1Result s = Some r ->
  top_predictions percent r = Some preds ->
  e1 _ (axios_post_json (stage2_url p) (payload_of p r s)) = Fulfilled data ->
  truthy (final_report data) = false ->
  let w' := snd (run apply (handleSubmitAnswers percent p s) (e1 :: envs) w) in
  finalReport (st w') = Some "No detailed AI report available."%string /\
  map (fun post => aiFinalReport (save_result (snd post))) (save_posts w')
  = map (fun post => aiFinalReport (save_result (snd post))) (save_posts w)
    ++ [final_report data] /\
  final_report data <> Some "No detailed AI report available."%string.
Proof.
  intros Hs Hp He Hf. cbv zeta.
  assert (Ho : or_else (final_report data) "No detailed AI report available."
               = "No detailed AI report available."%string).
  { unfold or_else. destruct (final_report data) as [ t | ]; auto.
    simpl in Hf. destruct (t =? "")%string; [ reflexivity | discriminate ]. }
  unfold handleSubmitAnswers, try_catch_finally, submit_try, await.
  rewrite Hs. cbn -[or_else payload_of stage2_url saveUrl dataKey aiResult_of]. rewrite He. cbn -[or_else payload_of stage2_url saveUrl dataKey aiResult_of]. rewrite Hp, Ho.
  split; [ | split ].
  - destruct envs as [ | e2 rest ]; [ reflexivity | ].
    simpl. destruct (e2 _ _); reflexivity.
  - destruct envs as [ | e2 rest ];
      [ | simpl; destruct (e2 _ _) ];
      unfold save_posts; simpl;
      repeat (rewrite filter_map_app; simpl);
      rewrite ?app_nil_r, map_app; reflexivity.
  - intros E. rewrite E in Hf. discriminate.
Qed.

(** *** Answering the questions *)

Lemma steps_app p evs1 evs2 (w : world num) :
  steps percent p (evs1 ++ evs2) w
  = match steps percent p evs1 w with
    | Some w1 => steps percent p evs2 w1
    | None => None
    end.
Proof.
  revert w. induction evs1 as [ | ev rest IH ]; intros w; simpl; auto.
  destruct (step percent p ev w); auto.
Qed.

Lemma all_given_of_get (a : list (option string)) :
  (forall i, i < List.length a -> truthy (array_get a i) = true) ->
  all_given a.
Proof.
  unfold all_given, array_get.
  induction a as [ | x t IH ]; intros H; constructor.
  - apply (H 0). simpl. lia.
  - apply IH. intros i Hi. apply (H (S i)). simpl. lia.
Qed.

Lemma change_keeps_answered (s : state num) v :
  answered_so_far s ->
  answered_so_far (apply (setAnswers (array_set (answers s) (currentQ s) v)) s).
Proof.
  intros (r & qs & H1 & H2 & H3 & H4 & H5).
  exists r, qs. simpl. repeat split; auto.
  - rewrite array_set_length. lia.
  - intros i Hi. rewrite array_get_set_other by lia. auto.
Qed.

(** One event at the question card, from a state in which the questions
    before the one on screen are answered: the card stays with that
    property, or the answers are submitted, every one of them given. *)
Lemma question_card_step p ev (w w' : world num) :
  at_question_card ev = true ->
  answered_so_far (st w) ->
  step percent p ev w = Some w' ->
  (stage2_posts w' = stage2_posts w /\
   question_card (st w') = question_card (st w) /\
   answered_so_far (st w')) \/
  (question_card (st w') = false /\
   exists post,
     stage2_posts w' = stage2_posts w ++ [post] /\
     all_given (payload_answers (snd post))).
Proof.
  intros Hev Ha Hstep. destruct ev as [ | v | | i env ]; try discriminate;
    simpl in Hstep;
    destruct (question_card (st w)) eqn:Hc; try discriminate;
    inversion Hstep; subst; clear Hstep.
  - left. unfold fire, handleAnswerChange. simpl.
    split; [ read_calls | ]. split.
    + unfold question_card in *. simpl. exact Hc.
    + apply change_keeps_answered. exact Ha.
  - destruct Ha as (r & qs & H1 & H2 & H3 & H4 & H5).
    unfold nextQuestion.
    destruct (truthy (array_get (answers (st w)) (currentQ (st w)))) eqn:Ht;
      simpl.
    + rewrite H1, H2.
      destruct (Z.of_nat (currentQ (st w)) <? Z.of_nat (List.length qs) - 1)%Z
        eqn:Hlt.
      * left. apply Z.ltb_lt in Hlt. unfold fire. simpl.
        split; [ read_calls | ]. split.
        -- unfold question_card in *. simpl. exact Hc.
        -- exists r, qs. simpl. repeat split; auto; try lia.
           intros i Hi.
           destruct (Nat.eq_dec i (currentQ (st w))) as [ -> | Hne ]; auto.
           apply H5. lia.
      * right. apply Z.ltb_ge in Hlt.
        unfold fire, handleSubmitAnswers, try_catch_finally, submit_try, await.
        simpl. rewrite H1. simpl. split; [ reflexivity | ].
        eexists. split; [ read_calls | ]. simpl.
        apply all_given_of_get. intros i Hi.
        destruct (Nat.eq_dec i (currentQ (st w))) as [ -> | Hne ]; auto.
        apply H5. lia.
    + left. unfold fire. simpl. split; [ read_calls | ]. split.
      * exact Hc.
      * exists r, qs. auto.
Qed.

Lemma question_flow p evs :
  forall w w' : world num,
    forallb at_question_card evs = true ->
    answered_so_far (st w) ->
    steps percent p evs w = Some w' ->
    exists new,
      stage2_posts w' = stage2_posts w ++ new /\
      Forall (fun post => all_given (payload_answers (snd post))) new.
Proof.
  induction evs as [ | ev rest IH ]; simpl; intros w w' Hev Ha Hs.
  - inversion Hs; subst. exists []. rewrite app_nil_r. auto.
  - apply andb_true_iff in Hev. destruct Hev as [ Hev Hrest ].
    destruct (step percent p ev w) as [ w1 | ] eqn:H1; [ | discriminate ].
    destruct (question_card_step p ev w w1 Hev Ha H1)
      as [ (P1 & P2 & P3) | (P1 & post & P2 & P3) ].
    + destruct (IH w1 w' Hrest P3 Hs) as (new & N1 & N2).
      exists new. rewrite N1, P1. auto.
    + destruct rest as [ | ev2 rest ].
      * simpl in Hs. inversion Hs; subst.
        exists [post]. auto.
      * simpl in Hs, Hrest. apply andb_true_iff in Hrest.
        destruct Hrest as [ Hev2 _ ].
        destruct ev2; try discriminate; simpl in Hs; rewrite P1 in Hs;
          discriminate.
Qed.

(** An analysis started with [currentQ] at 0 whose stage-1 call returns
    questions opens the question card on the first question with blank
    answers. *)
Lemma analysis_opens_questions p (w : world num)
      (e1 e2 e3 : oracle (request num)) imageResponse b data :
  idle_card (st w) = true ->
  pending w = [] ->
  loading (st w) = false ->
  currentQ (st w) = 0 ->
  e1 _ (fetch (imageUrl p)) = Fulfilled imageResponse ->
  e2 _ (blob imageResponse) = Fulfilled b ->
  e3 _ (axios_post_form (stage1_url p) [("image", b, "patient_image.jpg")])
  = Fulfilled data ->
  no_questions data = false ->
  exists w1,
    steps percent p [ClickAnalyze; Settle 0 e1; Settle 0 e2; Settle 0 e3] w
    = Some w1 /\
    stage2_posts w1 = stage2_posts w /\
    question_card (st w1) = true /\
    answers (st w1) = repeat (Some ""%string) (questions_length data) /\
    answered_so_far (st w1).
Proof.
  intros Hi Hp Hl Hq H1 H2 H3 Hn.
  unfold steps, step. rewrite Hi.
  unfold fire, handleAnalyze. rewrite Hl. simpl.
  unfold settle. simpl. rewrite Hp. simpl. rewrite H1.
  unfold fire. simpl. rewrite H2. simpl. rewrite H3. simpl. rewrite Hn.
  simpl. eexists. split; [ reflexivity | ]. simpl.
  split; [ read_calls | ]. split; [ reflexivity | ].
  split; [ reflexivity | ].
  destruct (no_questions_false data Hn) as (q & qs & Hqs).
  exists data, (q :: qs). simpl.
  unfold questions_length. rewrite Hqs.
  repeat split; auto.
  - rewrite repeat_length. reflexivity.
  - rewrite Hq. simpl. lia.
  - intros i Hlt. lia.
Qed.

(** The question flow of an analysis started with [currentQ] at 0, as it
    is on the first analysis after mounting: whatever the nurse then types
    and clicks at the question card, a submission to stage 2 is made only
    with every answer a non-empty string. *)
Theorem first_pass_answers_all_given p (w w' : world num)
        (e1 e2 e3 : oracle (request num)) imageResponse b data evs :
  idle_card (st w) = true ->
  pending w = [] ->
  loading (st w) = false ->
  currentQ (st w) = 0 ->
  e1 _ (fetch (imageUrl p)) = Fulfilled imageResponse ->
  e2 _ (blob imageResponse) = Fulfilled b ->
  e3 _ (axios_post_form (stage1_url p) [("image", b, "patient_image.jpg")])
  = Fulfilled data ->
  no_questions data = false ->
  forallb at_question_card evs = true ->
  steps percent p
        ([ClickAnalyze; Settle 0 e1; Settle 0 e2; Settle 0 e3] ++ evs) w
  = Some w' ->
  exists new,
    stage2_posts w' = stage2_posts w ++ new /\
    Forall (fun post => all_given (payload_answers (snd post))) new.
Proof.
  intros Hi Hp Hl Hq H1 H2 H3 Hn Hev Hs.
  destruct (analysis_opens_questions p w e1 e2 e3 imageResponse b data
              Hi Hp Hl Hq H1 H2 H3 Hn) as (w1 & S1 & P1 & _ & _ & A1).
  rewrite steps_app, S1 in Hs.
  destruct (question_flow p evs w1 w' Hev A1 Hs) as (new & N1 & N2).
  exists new. rewrite N1, P1. auto.
Qed.

(** *** The button of the question card *)

(** The button of the question card does what its label says.  On an empty
    answer a click only alerts "Please answer this question." and changes
    nothing.  On a given answer, the button labelled Next moves to the
    next question and sends nothing, and the button labelled Generate
    Report submits the answers to stage 2 and enters stage generating. *)
Theorem next_button_does_what_it_says p (w w' : world num) :
  step percent p ClickNext w = Some w' ->
  (truthy (array_get (answers (st w)) (currentQ (st w))) = false ->
   st w' = st w /\
   pending w' = pending w /\
   alerts w' = alerts w ++ ["Please answer this question."%string]) /\
  (truthy (array_get (answers (st w)) (currentQ (st w))) = true ->
   next_button_label (st w) = Some NextLabel ->
   currentQ (st w') = currentQ (st w) + 1 /\
   stage (st w') = stage (st w) /\
   answers (st w') = answers (st w) /\
   pending w' = pending w /\
   stage2_posts w' = stage2_posts w /\
   alerts w' = alerts w) /\
  (truthy (array_get (answers (st w)) (currentQ (st w))) = true ->
   next_button_label (st w) = Some GenerateReportLabel ->
   stage (st w') = "generating"%string /\
   currentQ (st w') = currentQ (st w) /\
   alerts w' = alerts w /\
   exists post,
     stage2_posts w' = stage2_posts w ++ [post] /\
     payload_answers (snd post) = answers (st w)).
Proof.
  intros Hstep. simpl in Hstep.
  destruct (question_card (st w)); [ | discriminate ].
  inversion Hstep; subst; clear Hstep.
  unfold nextQuestion, next_button_label.
  split; [ | split ].
  - intros Ht. rewrite Ht. simpl. unfold fire. simpl.
    repeat split. unfold alerts. simpl. rewrite filter_map_app. reflexivity.
  - intros Ht Hlab. rewrite Ht. simpl.
    destruct (stage1Result (st w)) as [ r | ]; [ | discriminate ].
    destruct (questions r) as [ qs | ]; [ | discriminate ].
    destruct (Z.of_nat (currentQ (st w)) <? Z.of_nat (List.length qs) - 1)%Z;
      [ | discriminate ].
    unfold fire. simpl. repeat split.
    + read_calls.
    + unfold alerts. simpl. rewrite filter_map_app. simpl. apply app_nil_r.
  - intros Ht Hlab. rewrite Ht. simpl.
    destruct (stage1Result (st w)) as [ r | ] eqn:Hr; [ | discriminate ].
    destruct (questions r) as [ qs | ]; [ | discriminate ].
    destruct (Z.of_nat (currentQ (st w)) <? Z.of_nat (List.length qs) - 1)%Z;
      [ discriminate | ].
    unfold fire, handleSubmitAnswers, try_catch_finally, submit_try, await.
    simpl. rewrite Hr. simpl. repeat split.
    + unfold alerts. simpl. repeat (rewrite filter_map_app; simpl).
      rewrite ?app_nil_r. reflexivity.
    + eexists. split; [ read_calls | ]. reflexivity.
Qed.
(** *** A submission started by the analysis *)

(** C4, as the code has it: the body of a stage-2 submission is copied
    from the stage-1 result of the render whose handler started it, which
    need not be the one stored.  In a reachable world that shows the
    Analyze button and holds the result [old] of an earlier analysis, an
    analysis whose stage-1 call is fulfilled with a result [data] without
    questions stores [data] and submits at once; the one body it posts to
    [/api/{conditionType}_stage2] carries [top3_classes], [top3_probs],
    [rag_summary] and [questions] of [old] and the answers given before
    the click.  Unless [data] is [old] field for field, that body is not
    the one made of the stored result. *)
Theorem analysis_submits_stale_result p (w : world num)
        (old : stage1_data num) (e1 e2 e3 : oracle (request num))
        imageResponse b (data : stage1_data num) :
  reachable percent p w ->
  idle_card (st w) = true ->
  stage1Result (st w) = Some old ->
  e1 _ (fetch (imageUrl p)) = Fulfilled imageResponse ->
  e2 _ (blob imageResponse) = Fulfilled b ->
  e3 _ (axios_post_form (stage1_url p) [("image", b, "patient_image.jpg")])
  = Fulfilled data ->
  no_questions data = true ->
  exists (w' : world num) (body : stage2_payload num),
    steps percent p [ClickAnalyze; Settle 0 e1; Settle 0 e2; Settle 0 e3] w
    = Some w' /\
    stage (st w') = "generating"%string /\
    stage1Result (st w') = Some data /\
    answers (st w') = answers (st w) /\
    stage2_posts w'
    = stage2_posts w ++
      [ (("http://localhost:5001/api/" ++ conditionType p ++ "_stage2")%string,
         body) ] /\
    body = {| payload_top3_classes := top3_classes old;
              payload_top3_probs := top3_probs old;
              payload_rag_summary := rag_summary old;
              payload_questions := questions old;
              payload_answers := answers (st w);
              patient_ref := patientRef p;
              image_url := imageUrl p |} /\
    (data <> old ->
     body <> {| payload_top3_classes := top3_classes data;
                payload_top3_probs := top3_probs data;
                payload_rag_summary := rag_summary data;
                payload_questions := questions data;
                payload_answers := answers (st w');
                patient_ref := patientRef p;
                image_url := imageUrl p |}).
Proof.
  intros Hr Hc Hold H1 H2 H3 Hq.
  assert (HI : settled_when_interactive (st w)).
  { apply (reachable_keeps settled_when_interactive p w); auto.
    - intros _. reflexivity.
    - apply handlers_keep_settled. }
  assert (Hi := Hc). unfold idle_card in Hi. apply String.eqb_eq in Hi.
  assert (Hl : loading (st w) = false) by (apply HI; auto).
  assert (Hp : pending w = []).
  { apply invariant_quiet_stage.
    - eapply reachable_invariant; eauto.
    - rewrite Hi. reflexivity. }
  destruct w as [ s l pd ]. simpl in Hc, Hold, Hl, Hp. subst pd.
  unfold steps, step. cbn [st]. rewrite Hc.
  unfold fire, handleAnalyze. rewrite Hl.
  unfold settle, fire. simpl. rewrite H1. simpl.
  rewrite H2. simpl. rewrite H3. simpl. rewrite Hq. simpl.
  unfold submit_try. rewrite Hold. simpl.
  eexists. eexists. split; [ reflexivity | ]. simpl.
  split; [ reflexivity | ]. split; [ reflexivity | ].
  split; [ reflexivity | ].
  split; [ read_calls | ].
  split; [ reflexivity | ].
  intros Hne Heq. apply Hne.
  destruct old, data. unfold payload_of in Heq. simpl in Heq. congruence.
Qed.
End Guarantees.


Lemma currentQ_never_decreases_witness :
  let w := Scenario.after Scenario.failed_report in
  let evs := Scenario.analysis ++ [ChangeAnswer "no"; ClickNext] in
  let w' := Scenario.after Scenario.second_analysis in
  reachable Scenario.percent Scenario.wound w /\
  steps Scenario.percent Scenario.wound evs w = Some w' /\
  currentQ (st w) = 2 /\
  currentQ (st w) <= currentQ (st w') <= currentQ (st w) + List.length evs.
Proof.
  cbv zeta.
  assert (Hr : reachable Scenario.percent Scenario.wound
                         (Scenario.after Scenario.failed_report))
    by (apply (after_reachable Scenario.failed_report);
        vm_compute; reflexivity).
  assert (Hs : steps Scenario.percent Scenario.wound
                     (Scenario.analysis ++ [ChangeAnswer "no"; ClickNext])
                     (Scenario.after Scenario.failed_report)
               = Some (Scenario.after Scenario.second_analysis))
    by (vm_compute; reflexivity).
  split; [ exact Hr | ]. split; [ exact Hs | ].
  split; [ vm_compute; reflexivity | ].
  exact (currentQ_never_decreases nat Scenario.percent Scenario.wound
           _ _ _ Hr Hs).
Defined.

Lemma interactive_means_not_loading_witness :
  let w := Scenario.after Scenario.failed_report in
  reachable Scenario.percent Scenario.wound w /\
  idle_card (st w) = true /\
  loading (st w) = false /\
  exists w' k,
    step Scenario.percent Scenario.wound ClickAnalyze w = Some w' /\
    pending w' = [Pend Response (fetch "/uploads/wound.jpg") k] /\
    stage (st w') = "analyzing"%string /\
    loading (st w') = true.
Proof.
  cbv zeta.
  assert (Hr : reachable Scenario.percent Scenario.wound
                         (Scenario.after Scenario.failed_report))
    by (apply (after_reachable Scenario.failed_report);
        vm_compute; reflexivity).
  assert (Hi : idle_card (st (Scenario.after Scenario.failed_report)) = true)
    by (vm_compute; reflexivity).
  split; [ exact Hr | ]. split; [ exact Hi | ].
  exact (proj2 (interactive_means_not_loading nat Scenario.percent
                  Scenario.wound _ Hr) Hi).
Defined.


Lemma question_card_has_questions_witness :
  let w := Scenario.after Scenario.analysis in
  reachable Scenario.percent Scenario.wound w /\
  question_card (st w) = true /\
  (exists r q qs,
      stage1Result (st w) = Some r /\ questions r = Some (q :: qs)) /\
  result (nextQuestion Scenario.percent Scenario.wound (st w)) [] = Normal.
Proof.
  cbv zeta.
  assert (Hr : reachable Scenario.percent Scenario.wound
                         (Scenario.after Scenario.analysis))
    by (apply (after_reachable Scenario.analysis); vm_compute; reflexivity).
  assert (Hc : question_card (st (Scenario.after Scenario.analysis)) = true)
    by (vm_compute; reflexivity).
  split; [ exact Hr | ]. split; [ exact Hc | ].
  exact (question_card_has_questions nat Scenario.percent Scenario.wound
           _ Hr Hc).
Defined.

Lemma stage1_request_body_witness :
  let fetched := [Scenario.online; Scenario.online; Scenario.offline] in
  let unfetched := [Scenario.offline; Scenario.online; Scenario.online] in
  loading (num := nat) initial = false /\
  (fetches (snd (run apply
                   (handleAnalyze Scenario.percent Scenario.wound initial)
                   fetched start))
   = ["/uploads/wound.jpg"%string] /\
   stage1_posts (snd (run apply
                        (handleAnalyze Scenario.percent Scenario.wound initial)
                        fetched start))
   = [ ("http://localhost:5001/api/wound_stage1"%string,
        [("image"%string, BlobOf "jpeg", "patient_image.jpg"%string)]) ]) /\
  (fetches (snd (run apply
                   (handleAnalyze Scenario.percent Scenario.wound initial)
                   unfetched start))
   = ["/uploads/wound.jpg"%string] /\
   stage1_posts (snd (run apply
                        (handleAnalyze Scenario.percent Scenario.wound initial)
                        unfetched start))
   = []).
Proof.
  cbv zeta. split; [ reflexivity | ]. split.
  - exact (stage1_request_body nat Scenario.percent Scenario.wound initial
             [Scenario.online; Scenario.online; Scenario.offline] start
             eq_refl).
  - exact (stage1_request_body nat Scenario.percent Scenario.wound initial
             [Scenario.offline; Scenario.online; Scenario.online] start
             eq_refl).
Defined.


Lemma fallback_report_is_not_saved_witness :
  let w := Scenario.after (Scenario.analysis ++ Scenario.answering) in
  let r := Scenario.classified (Some Scenario.three_questions) in
  let preds := [ {| name := "burn"; confidence := "100.00" |};
                 {| name := "cut"; confidence := "0.00" |};
                 {| name := "ulcer"; confidence := "0.00" |} ] in
  let silent := Scenario.succeed r None in
  let w' :=
    snd (run apply (handleSubmitAnswers Scenario.percent Scenario.wound (st w))
             [silent; silent] w) in
  (stage1Result (st w) = Some r /\
   top_predictions Scenario.percent r = Some preds /\
   silent _ (axios_post_json (stage2_url Scenario.wound)
                             (payload_of Scenario.wound r (st w)))
   = Fulfilled {| final_report := None |} /\
   truthy (final_report {| final_report := None |}) = false) /\
  finalReport (st w') = Some "No detailed AI report available."%string /\
  map (fun post => aiFinalReport (save_result (snd post))) (save_posts w')
  = map (fun post => aiFinalReport (save_result (snd post))) (save_posts w)
    ++ [None].
Proof.
  cbv zeta. split; [ repeat split; reflexivity | ].
  destruct (fallback_report_is_not_saved nat Scenario.percent Scenario.wound
              (st (Scenario.after (Scenario.analysis ++ Scenario.answering)))
              (Scenario.classified (Some Scenario.three_questions))
              [ {| name := "burn"; confidence := "100.00" |};
                {| name := "cut"; confidence := "0.00" |};
                {| name := "ulcer"; confidence := "0.00" |} ]
              (Scenario.succeed
                 (Scenario.classified (Some Scenario.three_questions)) None)
              [Scenario.succeed
                 (Scenario.classified (Some Scenario.three_questions)) None]
              {| final_report := None |}
              (Scenario.after (Scenario.analysis ++ Scenario.answering))
              eq_refl eq_refl eq_refl eq_refl)
    as (H1 & H2 & _).
  split; [ exact H1 | exact H2 ].
Defined.

Lemma first_pass_answers_all_given_witness :
  let evs := Scenario.answering ++ [ClickNext] in
  let w' := Scenario.after (Scenario.analysis ++ evs) in
  (idle_card (num := nat) (st start) = true /\
   pending (start (num := nat)) = [] /\
   loading (num := nat) (st start) = false /\
   currentQ (num := nat) (st start) = 0 /\
   Scenario.online _ (fetch "/uploads/wound.jpg")
   = Fulfilled (HttpResponse "jpeg") /\
   Scenario.online _ (blob (HttpResponse "jpeg")) = Fulfilled (BlobOf "jpeg") /\
   Scenario.online _ (axios_post_form (stage1_url Scenario.wound)
                        [("image"%string, BlobOf "jpeg",
                          "patient_image.jpg"%string)])
   = Fulfilled (Scenario.classified (Some Scenario.three_questions)) /\
   no_questions (Scenario.classified (Some Scenario.three_questions)) = false /\
   forallb at_question_card evs = true /\
   steps Scenario.percent Scenario.wound (Scenario.analysis ++ evs) start
   = Some w') /\
  exists new,
    stage2_posts w' = stage2_posts (start (num := nat)) ++ new /\
    Forall (fun post => all_given (payload_answers (snd post))) new.
Proof.
  cbv zeta.
  assert (Hs : steps Scenario.percent Scenario.wound
                     (Scenario.analysis ++ Scenario.answering ++ [ClickNext])
                     start
               = Some (Scenario.after
                         (Scenario.analysis ++ Scenario.answering
                            ++ [ClickNext])))
    by (vm_compute; reflexivity).
  split.
  - do 9 (split; [ reflexivity | ]). exact Hs.
  - exact (first_pass_answers_all_given nat Scenario.percent Scenario.wound
             start _ Scenario.online Scenario.online Scenario.online
             (HttpResponse "jpeg") (BlobOf "jpeg")
             (Scenario.classified (Some Scenario.three_questions))
             (Scenario.answering ++ [ClickNext])
             eq_refl eq_refl eq_refl eq_refl eq_refl eq_refl eq_refl eq_refl
             eq_refl Hs).
Defined.

Lemma next_button_does_what_it_says_witness :
  let w := Scenario.after Scenario.analysis in
  let w1 := Scenario.after (Scenario.analysis ++ [ClickNext]) in
  let typed := Scenario.after (Scenario.analysis ++ Scenario.answering) in
  let sent := Scenario.after (Scenario.analysis ++ Scenario.answering
                                ++ [ClickNext]) in
  (step Scenario.percent Scenario.wound ClickNext w = Some w1 /\
   truthy (array_get (answers (st w)) (currentQ (st w))) = false /\
   st w1 = st w /\
   alerts w1 = alerts w ++ ["Please answer this question."%string]) /\
  (step Scenario.percent Scenario.wound ClickNext typed = Some sent /\
   truthy (array_get (answers (st typed)) (currentQ (st typed))) = true /\
   next_button_label (st typed) = Some GenerateReportLabel /\
   stage (st sent) = "generating"%string /\
   exists post,
     stage2_posts sent = stage2_posts typed ++ [post] /\
     payload_answers (snd post) = answers (st typed)).
Proof.
  cbv zeta.
  assert (H1 : step Scenario.percent Scenario.wound ClickNext
                    (Scenario.after Scenario.analysis)
               = Some (Scenario.after (Scenario.analysis ++ [ClickNext])))
    by (vm_compute; reflexivity).
  assert (H2 : step Scenario.percent Scenario.wound ClickNext
                    (Scenario.after (Scenario.analysis ++ Scenario.answering))
               = Some (Scenario.after (Scenario.analysis ++ Scenario.answering
                                         ++ [ClickNext])))
    by (vm_compute; reflexivity).
  split.
  - split; [ exact H1 | ]. split; [ reflexivity | ].
    destruct (proj1 (next_button_does_what_it_says nat Scenario.percent
                       Scenario.wound _ _ H1) eq_refl) as (A & _ & C).
    split; [ exact A | exact C ].
  - split; [ exact H2 | ]. split; [ reflexivity | ].
    split; [ reflexivity | ].
    destruct (proj2 (proj2 (next_button_does_what_it_says nat Scenario.percent
                              Scenario.wound _ _ H2)) eq_refl eq_refl)
      as (A & _ & _ & D).
    split; [ exact A | exact D ].
Defined.
Lemma analysis_submits_stale_result_witness :
  let w := Scenario.after Scenario.failed_report in
  let old := Scenario.classified (Some Scenario.three_questions) in
  (reachable Scenario.percent Scenario.wound w /\
   idle_card (st w) = true /\
   stage1Result (st w) = Some old /\
   Scenario.rerun _ (fetch "/uploads/wound.jpg")
   = Fulfilled (HttpResponse "jpeg") /\
   Scenario.rerun _ (blob (HttpResponse "jpeg")) = Fulfilled (BlobOf "jpeg") /\
   Scenario.rerun _ (axios_post_form
                       (stage1_url Scenario.wound)
                       [("image", BlobOf "jpeg", "patient_image.jpg")])
   = Fulfilled Scenario.reclassified /\
   no_questions Scenario.reclassified = true /\
   Scenario.reclassified <> old) /\
  exists (w' : world nat) (body : stage2_payload nat),
    steps Scenario.percent Scenario.wound
          [ClickAnalyze; Settle 0 Scenario.rerun; Settle 0 Scenario.rerun;
           Settle 0 Scenario.rerun] w
    = Some w' /\
    stage1Result (st w') = Some Scenario.reclassified /\
    stage2_posts w'
    = stage2_posts w ++ [ ("http://localhost:5001/api/wound_stage2", body) ] /\
    body = {| payload_top3_classes := Some ["burn"; "cut"; "ulcer"];
              payload_top3_probs := Some [1; 0; 0];
              payload_rag_summary := Some "Keep the wound clean.";
              payload_questions := Some Scenario.three_questions;
              payload_answers := [Some "two days"; Some "none"; Some "no"];
              patient_ref := "P-001";
              image_url := "/uploads/wound.jpg" |} /\
    body <> {| payload_top3_classes := Some ["eczema"; "acne"; "rash"];
               payload_top3_probs := Some [0; 1; 0];
               payload_rag_summary := Some "Keep the skin dry.";
               payload_questions := Some [];
               payload_answers := answers (st w');
               patient_ref := "P-001";
               image_url := "/uploads/wound.jpg" |}.
Proof.
  cbv zeta.
  assert (Hs : steps Scenario.percent Scenario.wound Scenario.failed_report
                     start
               = Some (Scenario.after Scenario.failed_report))
    by (vm_compute; reflexivity).
  assert (Hr : reachable Scenario.percent Scenario.wound
                 (Scenario.after Scenario.failed_report))
    by (exact (after_reachable Scenario.failed_report _ Hs)).
  assert (Hc : idle_card (st (Scenario.after Scenario.failed_report)) = true)
    by (vm_compute; reflexivity).
  assert (Ho : stage1Result (st (Scenario.after Scenario.failed_report))
               = Some (Scenario.classified (Some Scenario.three_questions)))
    by (vm_compute; reflexivity).
  assert (Ha : answers (st (Scenario.after Scenario.failed_report))
               = [Some "two days"; Some "none"; Some "no"])
    by (vm_compute; reflexivity).
  assert (Hne : Scenario.reclassified
                <> Scenario.classified (Some Scenario.three_questions))
    by discriminate.
  split.
  - split; [ exact Hr | ]. split; [ exact Hc | ]. split; [ exact Ho | ].
    split; [ reflexivity | ]. split; [ reflexivity | ].
    split; [ reflexivity | ]. split; [ reflexivity | exact Hne ].
  - destruct (analysis_submits_stale_result
                nat Scenario.percent Scenario.wound
                (Scenario.after Scenario.failed_report)
                (Scenario.classified (Some Scenario.three_questions))
                Scenario.rerun Scenario.rerun Scenario.rerun
                (HttpResponse "jpeg") (BlobOf "jpeg") Scenario.reclassified
                Hr Hc Ho eq_refl eq_refl eq_refl eq_refl)
      as (w' & body & Hsteps & _ & Hres & Hans & Hposts & Hbody & Hdiff).
    exists w', body.
    split; [ exact Hsteps | ]. split; [ exact Hres | ].
    split; [ exact Hposts | ].
    split; [ rewrite Hbody, Ha; reflexivity | exact (Hdiff Hne) ].
Defined.
End AIImageAnalysisFacts.


(* ================================================================== *)
(** * Facts about AISummary *)
(* ================================================================== *)

Module AISummaryFacts.
Import Async AsyncFacts AISummary.
Local Open Scope list_scope.

(** ** Splitting into lines *)

Lemma split_lines_cons (text : jsstring) :
  exists line lines, split_lines text = line :: lines.
Proof.
  induction text as [ | c rest IH ]; simpl.
  - eauto.
  - destruct (c =? LF)%N; [ eauto | ].
    destruct IH as (line & lines & ->). eauto.
Qed.

Lemma join_split_lines (text : jsstring) :
  join_lines (split_lines text) = text.
Proof.
  induction text as [ | c rest IH ]; simpl; [ reflexivity | ].
  destruct (c =? LF)%N eqn:E.
  - apply N.eqb_eq in E. subst c.
    destruct (split_lines_cons rest) as (line & lines & H).
    rewrite H in *. simpl. simpl in IH. rewrite IH. reflexivity.
  - destruct (split_lines_cons rest) as (line & lines & H).
    rewrite H in *. destruct lines; simpl in *; rewrite <- IH; reflexivity.
Qed.

Lemma split_lines_no_newline (text : jsstring) :
  forall line, In line (split_lines text) -> ~ In LF line.
Proof.
  induction text as [ | c rest IH ]; simpl; intros line Hin.
  - destruct Hin as [ <- | [] ]. auto.
  - destruct (c =? LF)%N eqn:E.
    + destruct Hin as [ <- | Hin ]; auto.
    + apply N.eqb_neq in E.
      destruct (split_lines rest) as [ | l ls ].
      * destruct Hin as [ <- | [] ]. intros [ H | [] ]. congruence.
      * destruct Hin as [ <- | Hin ].
        -- intros [ H | H ]; [ congruence | ].
           apply (IH l); simpl; auto.
        -- apply IH. simpl; auto.
Qed.

Lemma split_lines_line (line : jsstring) :
  ~ In LF line -> split_lines line = [line].
Proof.
  induction line as [ | c rest IH ]; simpl; intros H; [ reflexivity | ].
  destruct (c =? LF)%N eqn:E.
  - apply N.eqb_eq in E. exfalso. apply H. auto.
  - rewrite IH; auto.
Qed.

Lemma split_lines_app (line rest : jsstring) :
  ~ In LF line ->
  split_lines (line ++ LF :: rest) = line :: split_lines rest.
Proof.
  induction line as [ | c t IH ]; simpl; intros H.
  - reflexivity.
  - destruct (c =? LF)%N eqn:E.
    + apply N.eqb_eq in E. exfalso. apply H. auto.
    + rewrite IH; auto.
Qed.

Lemma split_join_lines (lines : list jsstring) :
  lines <> [] ->
  (forall line, In line lines -> ~ In LF line) ->
  split_lines (join_lines lines) = lines.
Proof.
  induction lines as [ | line rest IH ]; intros Hne Hno; [ congruence | ].
  destruct rest as [ | line' rest ].
  - simpl. apply split_lines_line. apply Hno. simpl; auto.
  - change (join_lines (line :: line' :: rest))
      with (line ++ LF :: join_lines (line' :: rest)).
    rewrite split_lines_app by (apply Hno; simpl; auto).
    rewrite IH; [ reflexivity | discriminate | ].
    intros l Hl. apply Hno. simpl in *. tauto.
Qed.

(** [split_lines] is the one splitting on newline characters. *)
Lemma splits_on_newlines_iff (text : jsstring) (lines : list jsstring) :
  splits_on_newlines text lines <-> lines = split_lines text.
Proof.
  unfold splits_on_newlines. split.
  - intros (Hne & Hj & Hno). subst text. symmetry.
    apply split_join_lines; auto.
  - intros ->. split; [ | split ].
    + destruct (split_lines_cons text) as (l & ls & ->). discriminate.
    + apply join_split_lines.
    + apply split_lines_no_newline.
Qed.

(** ** Dropping the bullet *)

Lemma drop_spaces_split (line : jsstring) :
  exists spaces,
    line = spaces ++ drop_spaces line /\
    forallb is_space spaces = true /\
    hd_error (map is_space (drop_spaces line)) <> Some true.
Proof.
  induction line as [ | c rest IH ]; simpl.
  - exists []. simpl. repeat split; auto. discriminate.
  - destruct (is_space c) eqn:E.
    + destruct IH as (sp & H1 & H2 & H3).
      exists (c :: sp). simpl. rewrite E, H2. repeat split; auto.
      f_equal. exact H1.
    + exists []. simpl. rewrite E. repeat split; auto. discriminate.
Qed.

Lemma drop_spaces_app (spaces rest : jsstring) :
  forallb is_space spaces = true ->
  hd_error (map is_space rest) <> Some true ->
  drop_spaces (spaces ++ rest) = rest.
Proof.
  induction spaces as [ | c t IH ]; simpl; intros Hs Hr.
  - destruct rest as [ | c r ]; simpl in *; auto.
    destruct (is_space c); congruence.
  - apply andb_true_iff in Hs. destruct Hs as [ Hc Ht ].
    rewrite Hc. auto.
Qed.

Lemma strip_bullet_without (line : jsstring) :
  without_bullet line (strip_bullet line).
Proof.
  unfold strip_bullet.
  destruct line as [ | c rest ].
  - simpl. apply (wb_plain [] []); simpl; auto; discriminate.
  - simpl. destruct (c =? STAR)%N eqn:E.
    + apply N.eqb_eq in E. subst c.
      destruct (drop_spaces_split rest) as (sp & H1 & H2 & H3).
      rewrite H1 at 1. apply wb_star; auto.
    + apply N.eqb_neq in E.
      destruct (drop_spaces_split (c :: rest)) as (sp & H1 & H2 & H3).
      rewrite H1 at 1. apply wb_plain; auto.
      rewrite <- H1. simpl. congruence.
Qed.

Lemma without_bullet_strip (line rest : jsstring) :
  without_bullet line rest -> rest = strip_bullet line.
Proof.
  intros H. destruct H as [ sp rest Hs Hr | sp rest Hs Hr Hh ];
    unfold strip_bullet.
  - simpl. symmetry. apply drop_spaces_app; auto.
  - assert (Hd : drop_star (sp ++ rest) = sp ++ rest).
    { destruct (sp ++ rest) as [ | c t ]; simpl in *; auto.
      destruct (c =? STAR)%N eqn:E; auto.
      apply N.eqb_eq in E. congruence. }
    rewrite Hd. symmetry. apply drop_spaces_app; auto.
Qed.

(** ** Blank lines *)

Lemma drop_spaces_blank (line : jsstring) :
  drop_spaces line = [] <-> blank line = true.
Proof.
  unfold blank. induction line as [ | c rest IH ]; simpl.
  - tauto.
  - destruct (is_space c); simpl; [ exact IH | ].
    split; discriminate.
Qed.

Lemma blank_app (a b : jsstring) :
  blank (a ++ b) = blank a && blank b.
Proof. unfold blank. apply forallb_app. Qed.

Lemma blank_rev (a : jsstring) : blank (rev a) = blank a.
Proof.
  induction a as [ | c t IH ]; simpl; auto.
  rewrite blank_app, IH. unfold blank at 2. simpl.
  rewrite andb_true_r. apply andb_comm.
Qed.

Lemma drop_spaces_keeps_blank (line : jsstring) :
  blank (drop_spaces line) = blank line.
Proof.
  induction line as [ | c rest IH ]; simpl; auto.
  destruct (is_space c) eqn:E; simpl; [ | rewrite E ]; auto.
Qed.

(** [line.trim().length > 0] says that the line is neither empty nor
    whitespace-only. *)
Lemma trim_length_blank (line : jsstring) :
  Nat.ltb 0 (List.length (trim line)) = negb (blank line).
Proof.
  unfold trim. rewrite length_rev.
  destruct (drop_spaces (rev (drop_spaces line))) as [ | c t ] eqn:E.
  - apply drop_spaces_blank in E.
    rewrite blank_rev, drop_spaces_keeps_blank in E. rewrite E. reflexivity.
  - simpl. destruct (blank line) eqn:B; auto.
    rewrite <- drop_spaces_keeps_blank, <- blank_rev in B.
    apply drop_spaces_blank in B. congruence.
Qed.

(** ** The bullet list *)

Lemma bullet_list_filter (lines : list jsstring) :
  bullet_list lines
    (filter (fun line => Nat.ltb 0 (List.length (trim line)))
            (map strip_bullet lines)).
Proof.
  induction lines as [ | line rest IH ]; simpl; [ constructor | ].
  rewrite trim_length_blank.
  destruct (blank (strip_bullet line)) eqn:B; simpl.
  - eapply bl_drop; eauto using strip_bullet_without.
  - eapply bl_keep; eauto using strip_bullet_without.
Qed.

Lemma bullet_list_unique (lines out : list jsstring) :
  bullet_list lines out ->
  out = filter (fun line => Nat.ltb 0 (List.length (trim line)))
               (map strip_bullet lines).
Proof.
  induction 1 as [ | line rest lines out Hw Hb Hl IH
                   | line rest lines out Hw Hb Hl IH ]; simpl; auto;
    apply without_bullet_strip in Hw; subst rest;
    rewrite trim_length_blank, Hb; simpl; congruence.
Qed.

(** C10: [toBulletList] returns the empty list for [null], [undefined] and
    the empty string, and for every other string the list the
    specification describes: the text is split on newline characters, each
    line loses at most one leading ["*"] together with the whitespace that
    immediately follows, and the lines then empty or whitespace-only are
    dropped.  That list is unique, so the function is determined by the
    description. *)
Theorem toBulletList_meets_spec (text : option jsstring) :
  bullet_list_spec text (toBulletList text) /\
  (forall out, bullet_list_spec text out -> out = toBulletList text) /\
  toBulletList None = [] /\
  toBulletList (Some []) = [].
Proof.
  split; [ | split; [ | split; reflexivity ] ].
  - destruct text as [ [ | c t ] | ]; simpl; auto.
    exists (split_lines (c :: t)). split.
    + apply splits_on_newlines_iff. reflexivity.
    + apply bullet_list_filter.
  - intros out H. destruct text as [ [ | c t ] | ]; simpl in *; auto.
    destruct H as (lines & Hs & Hb).
    apply splits_on_newlines_iff in Hs. subst lines.
    apply bullet_list_unique. exact Hb.
Qed.



(** ** What the bullet list holds *)

Lemma is_space_LF : is_space LF = true.
Proof. reflexivity. Qed.

Lemma drop_spaces_suffix (line : jsstring) :
  forall c, In c (drop_spaces line) -> In c line.
Proof.
  induction line as [ | x t IH ]; simpl; intros c H; auto.
  destruct (is_space x); auto.
Qed.

Lemma strip_bullet_suffix (line : jsstring) :
  forall c, In c (strip_bullet line) -> In c line.
Proof.
  intros c H. unfold strip_bullet in H. apply drop_spaces_suffix in H.
  destruct line as [ | x t ]; simpl in *; auto.
  destruct (x =? STAR)%N; simpl in *; auto.
Qed.

Lemma drop_spaces_head (line : jsstring) :
  hd_error (map is_space (drop_spaces line)) <> Some true.
Proof.
  destruct (drop_spaces_split line) as (sp & _ & _ & H). exact H.
Qed.

Lemma split_lines_length (text : jsstring) :
  List.length (split_lines text) = S (count_occ N.eq_dec text LF).
Proof.
  induction text as [ | c rest IH ]; simpl; [ reflexivity | ].
  destruct (c =? LF)%N eqn:E.
  - apply N.eqb_eq in E. subst c. simpl.
    destruct (N.eq_dec LF LF); [ | congruence ]. rewrite IH. reflexivity.
  - apply N.eqb_neq in E.
    destruct (N.eq_dec c LF); [ congruence | ].
    destruct (split_lines rest); simpl in *; [ discriminate | exact IH ].
Qed.

Lemma bullet_line_stripped (text : jsstring) (line : jsstring) :
  In line (toBulletList (Some text)) ->
  line <> [] /\
  blank line = false /\
  hd_error (map is_space line) <> Some true /\
  ~ In LF line /\
  exists source,
    In source (split_lines text) /\ line = strip_bullet source.
Proof.
  intros Hin.
  destruct text as [ | c t ]; [ destruct Hin | ].
  unfold toBulletList in Hin. apply filter_In in Hin.
  destruct Hin as [ Hin Hlen ]. rewrite trim_length_blank in Hlen.
  apply negb_true_iff in Hlen.
  apply in_map_iff in Hin. destruct Hin as (source & <- & Hs).
  split; [ | split; [ | split; [ | split ] ] ].
  - intros E. rewrite E in Hlen. discriminate.
  - exact Hlen.
  - apply drop_spaces_head.
  - intros H. apply strip_bullet_suffix in H.
    eapply split_lines_no_newline; eauto.
  - eauto.
Qed.

(** Every line [toBulletList] returns is neither empty nor whitespace-only,
    does not start with whitespace, holds no newline, and is a line of the
    text without its bullet; and there are at most as many of them as the
    text has lines. *)
Theorem toBulletList_lines (text : jsstring) :
  (forall line,
      In line (toBulletList (Some text)) ->
      line <> [] /\
      blank line = false /\
      hd_error (map is_space line) <> Some true /\
      ~ In LF line /\
      exists source,
        In source (split_lines text) /\ line = strip_bullet source) /\
  List.length (toBulletList (Some text))
  <= S (count_occ N.eq_dec text LF).
Proof.
  split.
  - apply bullet_line_stripped.
  - destruct text as [ | c t ]; [ simpl; lia | ].
    unfold toBulletList.
    eapply Nat.le_trans; [ apply filter_length_le | ].
    rewrite length_map, split_lines_length. reflexivity.
Qed.

(** ** The detailed summary *)

Lemma heading_of_no_underscore (key : jsstring) :
  ~ In UNDERSCORE (heading_of key).
Proof.
  unfold heading_of. intros H. apply in_map_iff in H.
  destruct H as (c & Hc & _).
  destruct (c =? UNDERSCORE)%N eqn:E; [ discriminate | ].
  apply N.eqb_neq in E. congruence.
Qed.

Lemma whitespace_only_bullets (t : jsstring) :
  blank t = true -> toBulletList (Some t) = [].
Proof.
  intros Hb.
  destruct (toBulletList (Some t)) as [ | line rest ] eqn:E; auto.
  exfalso.
  destruct (bullet_line_stripped t line)
    as (Hne & _ & _ & _ & source & Hs & Hl).
  { rewrite E. simpl; auto. }
  assert (Hbs : blank source = true).
  { unfold blank in *. rewrite forallb_forall in *.
    intros c Hc. apply Hb.
    rewrite <- (join_split_lines t).
    clear - Hs Hc. induction (split_lines t) as [ | l ls IH ];
      [ destruct Hs | ].
    destruct Hs as [ -> | Hs ].
    - destruct ls; simpl; auto. apply in_or_app. auto.
    - destruct ls as [ | l2 ls ]; [ destruct Hs | ].
      change (In c (l ++ LF :: join_lines (l2 :: ls))).
      apply in_or_app. right. right. apply IH. exact Hs. }
  assert (Hst : blank (strip_bullet source) = true).
  { unfold blank in *. rewrite forallb_forall in *.
    intros c Hc. apply Hbs. apply strip_bullet_suffix. exact Hc. }
  destruct (bullet_line_stripped t line) as (_ & Hnb & _).
  { rewrite E. simpl; auto. }
  congruence.
Qed.

Lemma detail_sections_in_order (entries : list (jsstring * summary_value)) :
  Forall2 (fun entry s =>
             heading s = heading_of (fst entry) /\
             bullets s = match snd entry with
                         | Text t => toBulletList (Some t)
                         | Items l => l
                         | Absent => []
                         end)
          (filter (fun entry => has_content (snd entry)) entries)
          (detail_sections entries).
Proof.
  induction entries as [ | [ key value ] rest IH ]; simpl.
  - constructor.
  - unfold section_of. simpl.
    destruct value as [ | [ | c t ] | [ | i l ] ]; simpl; auto;
      constructor; auto.
Qed.

(** The detailed summary shows exactly one section for every entry whose
    value is a non-empty text or a non-empty array, in the order of the
    entries, and none for the others: the sections are, one for one and in
    order, those of the entries that pass the guard.  The heading of a
    section is the key with every underscore turned into a space.  An
    array is listed item by item as it is; a text is listed as its bullet
    list, which is empty when the text is only whitespace: the heading is
    then shown with nothing under it. *)
Theorem detail_sections_shown (entries : list (jsstring * summary_value)) :
  Forall2 (fun entry s =>
             heading s = heading_of (fst entry) /\
             bullets s = match snd entry with
                         | Text t => toBulletList (Some t)
                         | Items l => l
                         | Absent => []
                         end)
          (filter (fun entry => has_content (snd entry)) entries)
          (detail_sections entries) /\
  (forall front back,
      entries = front ++ back ->
      detail_sections entries
      = detail_sections front ++ detail_sections back) /\
  (forall s, In s (detail_sections entries) ->
             ~ In UNDERSCORE (heading s) /\
             exists key value,
               In (key, value) entries /\
               heading s = heading_of key /\
               ((exists t, value = Text t /\ t <> [] /\
                           bullets s = toBulletList (Some t) /\
                           (blank t = true -> bullets s = [])) \/
                (exists l, value = Items l /\ l <> [] /\ bullets s = l))) /\
  (forall key value,
      In (key, value) entries ->
      value <> Absent -> value <> Text [] -> value <> Items [] ->
      exists s, In s (detail_sections entries) /\
                heading s = heading_of key) /\
  List.length (detail_sections entries) <= List.length entries.
Proof.
  split; [ apply detail_sections_in_order | ].
  split.
  { intros front back ->.
    induction front as [ | e front IH ]; simpl; [ reflexivity | ].
    destruct (section_of e); simpl; rewrite IH; reflexivity. }
  induction entries as [ | [ key value ] rest (IH1 & IH2 & IH3) ].
  - simpl. repeat split; intros; try contradiction. lia.
  - simpl. split; [ | split ].
    + intros s Hs.
      assert (Hcase :
                (section_of (key, value) = Some s) \/
                In s (detail_sections rest)).
      { destruct (section_of (key, value)); simpl in Hs; intuition congruence. }
      destruct Hcase as [ Hc | Hc ].
      * unfold section_of in Hc. simpl in Hc.
        destruct value as [ | [ | c t ] | [ | i l ] ]; try discriminate;
          inversion Hc; subst; clear Hc; simpl;
          (split; [ apply heading_of_no_underscore | ]);
          exists key; eexists; (split; [ left; reflexivity | ]);
          (split; [ reflexivity | ]).
        -- left. exists (c :: t). repeat split; try discriminate.
           intros Hb. apply (whitespace_only_bullets (c :: t) Hb).
        -- right. exists (i :: l). repeat split. discriminate.
      * destruct (IH1 s Hc) as (Hu & k & v & Hin & Hrest).
        split; auto. exists k, v. split; auto.
    + intros k v Hin Hv1 Hv2 Hv3. destruct Hin as [ Heq | Hin ].
      * inversion Heq; subst; clear Heq.
        unfold section_of at 1. simpl.
        destruct v as [ | [ | c t ] | [ | i l ] ]; try congruence;
          eexists; (split; [ left; reflexivity | reflexivity ]).
      * destruct (IH2 k v Hin Hv1 Hv2 Hv3) as (s & Hs & Hh).
        exists s. split; auto.
        destruct (section_of (key, value)); simpl; auto.
    + destruct (section_of (key, value)); simpl; lia.
Qed.

(** ** Where the AI data comes from *)

Section ViewerFacts.
Variable ai : Type.

Lemma nth_error_last (front : list ai) (c : ai) :
  nth_error (front ++ [c]) (List.length (front ++ [c]) - 1) = Some c.
Proof.
  rewrite length_app. simpl.
  replace (List.length front + 1 - 1) with (List.length front) by lia.
  rewrite nth_error_app2 by lia. rewrite Nat.sub_diag. reflexivity.
Qed.

(** C7: for a passed patient whose [conditionType] is neither ["wound"]
    nor ["skin"], mounting the viewer issues the one request
    [GET /cases/{ref}]; when it is fulfilled the card shows the last
    element of the returned [cases] array as the AI data, and the message
    "No AI summary available." when the array is empty or missing.  For
    ["wound"] and ["skin"] the viewer makes no request and shows the passed
    patient's [aiSummary]. *)
Theorem ai_summary_source (ref : option string) (pt : patient ai) :
  let w := mount ref (Some pt) in
  ((conditionType pt =? "wound")%string || (conditionType pt =? "skin")%string
   = false ->
   requests (log w)
   = [ ("/cases/" ++ match ref with Some r => r | None => "null" end)%string ]
   /\
   forall (env : oracle (request ai)) (data : cases_data ai) (w' : world ai),
     env _ (http_get (cases_url ref)) = Fulfilled data ->
     settle apply 0 env w = Some w' ->
     requests (log w') = requests (log w) /\
     pending w' = [] /\
     (forall front latest,
         cases data = Some (front ++ [latest]) ->
         render (Some pt) (st w') = Some (Summary pt (Results latest))) /\
     (cases data = None \/ cases data = Some [] ->
      render (Some pt) (st w') = Some (Summary pt NoSummaryMessage))) /\
  ((conditionType pt =? "wound")%string || (conditionType pt =? "skin")%string
   = true ->
   requests (log w) = [] /\
   pending w = [] /\
   aiData (st w) = aiSummary pt /\
   render (Some pt) (st w)
   = Some (Summary pt (match aiSummary pt with
                       | Some a => Results a
                       | None => NoSummaryMessage
                       end))).
Proof.
  cbv zeta. unfold mount, effect, loadAI, fire, try_catch_finally, await.
  split; intros Hc; simpl; rewrite Hc; simpl.
  - split; [ reflexivity | ].
    intros env data w' Henv Hs. unfold settle in Hs. simpl in Hs.
    rewrite Henv in Hs. unfold fire in Hs. simpl in Hs.
    inversion Hs; subst; clear Hs. simpl.
    repeat split.
    + intros front latest Hd. rewrite Hd.
      unfold render; simpl.
      destruct (Nat.ltb 0 (List.length (front ++ [latest]))) eqn:E.
      * rewrite nth_error_last. reflexivity.
      * apply Nat.ltb_ge in E. rewrite length_app in E. simpl in E. lia.
    + intros [ Hd | Hd ]; rewrite Hd; reflexivity.
  - repeat split; reflexivity.
Qed.

End ViewerFacts.

Lemma ai_summary_source_witness :
  let other := {| conditionType := "other"; aiSummary := Some 7 |} in
  let wound := {| conditionType := "wound"; aiSummary := Some 7 |} in
  let env : oracle (request nat) :=
    fun R e => match e in request _ R return settled R with
               | http_get _ => Fulfilled {| cases := Some [1; 2; 3] |}
               end in
  let w := mount (Some "P-001") (Some other) in
  let w' := fire apply (Do (setAiData (Some 3)) (Do (setLoading false) Ret))
                 {| st := st w; log := log w; pending := [] |} in
  (((conditionType other =? "wound")%string
    || (conditionType other =? "skin")%string = false) /\
   requests (log w) = ["/cases/P-001"%string] /\
   env _ (http_get (cases_url (Some "P-001")))
   = Fulfilled {| cases := Some ([1; 2] ++ [3]) |} /\
   settle apply 0 env w = Some w' /\
   render (Some other) (st w') = Some (Summary other (Results 3))) /\
  (((conditionType wound =? "wound")%string
    || (conditionType wound =? "skin")%string = true) /\
   requests (log (mount (Some "P-001") (Some wound))) = [] /\
   render (Some wound) (st (mount (Some "P-001") (Some wound)))
   = Some (Summary wound (Results 7))).
Proof.
  cbv zeta. split.
  - split; [ reflexivity | ].
    destruct (ai_summary_source nat (Some "P-001"%string)
                {| conditionType := "other"; aiSummary := Some 7 |})
      as [ H _ ].
    destruct (H eq_refl) as [ H1 H2 ].
    split; [ exact H1 | ].
    split; [ reflexivity | ].
    split; [ reflexivity | ].
    exact (proj1 (proj2 (proj2
             (H2 (fun R e => match e in request _ R return settled R with
                             | http_get _ =>
                                 Fulfilled {| cases := Some [1; 2; 3] |}
                             end)
                 {| cases := Some [1; 2; 3] |} _ eq_refl eq_refl)))
             [1; 2] 3 eq_refl).
  - split; [ reflexivity | ].
    destruct (ai_summary_source nat (Some "P-001"%string)
                {| conditionType := "wound"; aiSummary := Some 7 |})
      as [ _ H ].
    destruct (H eq_refl) as (H1 & _ & _ & H4).
    split; [ exact H1 | exact H4 ].
Defined.

(** ** When there is nothing to show *)

Section ViewerErrors.
Variable ai : Type.

(** Without a patient in the navigation state the viewer makes no request
    and shows the error "No patient data received." in place of the
    summary. *)
Theorem no_patient_no_request (ref : option string) :
  let w := mount (ai := ai) ref None in
  requests (log w) = [] /\
  pending w = [] /\
  render None (st w) = Some (ErrorMessage "No patient data received.").
Proof. cbv zeta. repeat split. Qed.

(** When the request for the cases is rejected, whatever the error, the
    viewer shows "Failed to load AI Summary." in place of the summary and
    stops loading; it makes no further request. *)
Theorem failed_cases_request_shows_error (ref : option string)
        (pt : patient ai) (env : oracle (request ai)) err (w' : world ai) :
  (conditionType pt =? "wound")%string || (conditionType pt =? "skin")%string
  = false ->
  env _ (http_get (cases_url ref)) = Rejected err ->
  settle apply 0 env (mount ref (Some pt)) = Some w' ->
  render (Some pt) (st w') = Some (ErrorMessage "Failed to load AI Summary.") /\
  loading (st w') = false /\
  aiData (st w') = None /\
  pending w' = [] /\
  requests (log w') = [cases_url ref].
Proof.
  intros Hc Henv Hs.
  unfold mount, effect, loadAI, fire, try_catch_finally, await in Hs.
  simpl in Hs. rewrite Hc in Hs. simpl in Hs.
  unfold settle in Hs. simpl in Hs. rewrite Henv in Hs.
  unfold fire in Hs. simpl in Hs. inversion Hs; subst; clear Hs.
  repeat split.
Qed.

End ViewerErrors.

Lemma failed_cases_request_shows_error_witness :
  let other := {| conditionType := "other"; aiSummary := Some 7 |} in
  let env : oracle (request nat) := fun R e => Rejected (HttpError 500) in
  let w := mount (Some "P-001"%string) (Some other) in
  let w' := fire apply (Do (setError "Failed to load AI Summary.")
                           (Do (setLoading false) Ret))
                 {| st := st w; log := log w; pending := [] |} in
  ((conditionType other =? "wound")%string
   || (conditionType other =? "skin")%string = false /\
   env _ (http_get (cases_url (Some "P-001"%string)))
   = Rejected (HttpError 500) /\
   settle apply 0 env w = Some w') /\
  render (Some other) (st w')
  = Some (ErrorMessage "Failed to load AI Summary.") /\
  loading (st w') = false /\
  aiData (st w') = None /\
  pending w' = [] /\
  requests (log w') = ["/cases/P-001"%string].
Proof.
  cbv zeta. split; [ repeat split | ].
  exact (failed_cases_request_shows_error nat (Some "P-001"%string)
           {| conditionType := "other"; aiSummary := Some 7 |}
           (fun R e => Rejected (HttpError 500)) (HttpError 500) _
           eq_refl eq_refl eq_refl).
Defined.

Lemma toBulletList_lines_witness :
  let text := [STAR; SPACE; 97; LF; SPACE; SPACE; 98; LF; LF; STAR]%N in
  toBulletList (Some text) = [[97]; [98]]%N /\
  In [97]%N (toBulletList (Some text)) /\
  ([97]%N <> [] /\
   blank [97]%N = false /\
   hd_error (map is_space [97]%N) <> Some true /\
   ~ In LF [97]%N /\
   exists source,
     In source (split_lines text) /\ [97]%N = strip_bullet source) /\
  List.length (toBulletList (Some text)) <= S (count_occ N.eq_dec text LF).
Proof.
  cbv zeta.
  assert (Hin : In [97]%N
                   (toBulletList
                      (Some [STAR; SPACE; 97; LF; SPACE; SPACE; 98; LF; LF;
                             STAR]%N)))
    by (left; reflexivity).
  split; [ reflexivity | ]. split; [ exact Hin | ].
  split.
  - exact (proj1 (toBulletList_lines
                    [STAR; SPACE; 97; LF; SPACE; SPACE; 98; LF; LF; STAR]%N)
                 _ Hin).
  - exact (proj2 (toBulletList_lines
                    [STAR; SPACE; 97; LF; SPACE; SPACE; 98; LF; LF; STAR]%N)).
Defined.

Lemma detail_sections_shown_witness :
  let entries :=
    [ ([104; 111; 109; 101; UNDERSCORE; 99; 97; 114; 101],
       Text [STAR; SPACE; 97; LF; STAR; SPACE; 98]);
      ([110; 111; 116; 101; 115], Text [SPACE; LF]);
      ([116; 101; 115; 116; 115], Items []);
      ([114; 101; 100; UNDERSCORE; 102; 108; 97; 103; 115],
       Items [[120]; [121]]) ]%N in
  detail_sections entries
  = [ {| heading := [104; 111; 109; 101; SPACE; 99; 97; 114; 101];
         bullets := [[97]; [98]] |};
      {| heading := [110; 111; 116; 101; 115]; bullets := [] |};
      {| heading := [114; 101; 100; SPACE; 102; 108; 97; 103; 115];
         bullets := [[120]; [121]] |} ]%N /\
  Forall2 (fun entry s =>
             heading s = heading_of (fst entry) /\
             bullets s = match snd entry with
                         | Text t => toBulletList (Some t)
                         | Items l => l
                         | Absent => []
                         end)
          (filter (fun entry => has_content (snd entry)) entries)
          (detail_sections entries) /\
  (forall s, In s (detail_sections entries) -> ~ In UNDERSCORE (heading s)) /\
  List.length (detail_sections entries) <= List.length entries.
Proof.
  cbv zeta. split; [ reflexivity | ]. split; [ | split ].
  - exact (proj1 (detail_sections_shown _)).
  - intros s Hs.
    exact (proj1 (proj1 (proj2 (proj2 (detail_sections_shown _))) s Hs)).
  - exact (proj2 (proj2 (proj2 (proj2 (detail_sections_shown _))))).
Defined.
End AISummaryFacts.

(* ================================================================== *)
(** * Facts about WoundCareAI *)
(* ================================================================== *)

Module WoundCareAIFacts.
Import Async AsyncFacts WoundCareAI.
Local Open Scope list_scope.




(** ** When the patient cannot be fetched *)

(** When the request for the patient is rejected the page logs the error,
    shows exactly one alert and stops loading with no image: for a
    response with status 401 the alert is "Session expired. Please log in
    again." and the page is sent to [/login]; for every other failure the
    alert is "Failed to fetch patient data." and the page stays, showing
    the no-image message. *)
Theorem patient_fetch_failure (ref : string) (env : oracle request) err
        (w' : world) :
  ref <> ""%string ->
  env _ (http_get ("/patients/" ++ ref)) = Rejected err ->
  settle apply 0 env (mount ref) = Some w' ->
  imageUrl (st w') = None /\
  loading (st w') = false /\
  render ref (st w') = {| loading_line := false; body := NoImageMessage |} /\
  pending w' = [] /\
  (status_is err 401 = true ->
   alerts (log w') = ["Session expired. Please log in again."%string] /\
   redirects (log w') = ["/login"%string]) /\
  (status_is err 401 = false ->
   alerts (log w') = ["Failed to fetch patient data."%string] /\
   redirects (log w') = []).
Proof.
  intros Hne Henv Hs. apply String.eqb_neq in Hne.
  unfold mount, effect in Hs. rewrite Hne in Hs.
  unfold fetchPatientImage, fire, try_catch_finally, await in Hs.
  simpl in Hs. unfold settle in Hs. simpl in Hs, Henv. rewrite Henv in Hs.
  unfold fire in Hs. simpl in Hs.
  destruct (status_is err 401) eqn:E; simpl in Hs;
    inversion Hs; subst; clear Hs; simpl;
    repeat split; intros; try discriminate; reflexivity.
Qed.

(** ** The loading line *)

(** Once the request for the patient has settled, whatever the outcome,
    the loading line is gone.  With an empty [ref] there is no request to
    settle: the page keeps showing "Loading image..." and nothing else,
    and no event can change that. *)
Theorem loading_line_ends_with_the_request (ref : string) :
  (ref <> ""%string ->
   loading_line (render ref (st (mount ref))) = true /\
   forall i (env : oracle request) (w' : world),
     settle apply i env (mount ref) = Some w' ->
     loading_line (render ref (st w')) = false /\ pending w' = []) /\
  (ref = ""%string ->
   render ref (st (mount ref)) = {| loading_line := true; body := Empty |} /\
   forall i (env : oracle request), settle apply i env (mount ref) = None).
Proof.
  unfold mount, effect. split.
  - intros Hne. apply String.eqb_neq in Hne. rewrite Hne.
    unfold fetchPatientImage, fire, try_catch_finally, await. simpl.
    split; [ reflexivity | ].
    intros i env w' Hs. unfold settle in Hs. simpl in Hs.
    destruct i as [ | i ]; simpl in Hs; [ | destruct i; discriminate ].
    unfold fire in Hs. simpl in Hs.
    destruct (env _ _) as [ data | err ]; simpl in Hs.
    + destruct (photos_or_empty data); simpl in Hs;
        inversion Hs; subst; split; reflexivity.
    + destruct (status_is err 401); simpl in Hs;
        inversion Hs; subst; split; reflexivity.
  - intros ->. simpl. split; [ reflexivity | ].
    intros i env. unfold settle. simpl. destruct i; reflexivity.
Qed.

(** ** A photo without an address *)


Lemma patient_fetch_failure_witness :
  let expired : oracle request := fun R e => Rejected (HttpError 401) in
  let down : oracle request := fun R e => Rejected NetworkError in
  let w := mount "P-001" in
  let after_failure (msgs : list action) :=
    {| st := {| imageUrl := None; loading := false |};
       log := log w ++ map (fun a => Did a) msgs;
       pending := [] |} : world in
  let w1 := after_failure
              [ console_error "Error fetching patient image:" (HttpError 401);
                alert "Session expired. Please log in again.";
                set_location_href "/login";
                setLoading false ] in
  let w2 := after_failure
              [ console_error "Error fetching patient image:" NetworkError;
                alert "Failed to fetch patient data.";
                setLoading false ] in
  ("P-001"%string <> ""%string /\
   settle apply 0 expired w = Some w1 /\
   status_is (HttpError 401) 401 = true /\
   alerts (log w1) = ["Session expired. Please log in again."%string] /\
   redirects (log w1) = ["/login"%string]) /\
  (settle apply 0 down w = Some w2 /\
   status_is NetworkError 401 = false /\
   alerts (log w2) = ["Failed to fetch patient data."%string] /\
   redirects (log w2) = [] /\
   render "P-001" (st w2)
   = {| loading_line := false; body := NoImageMessage |}).
Proof.
  cbv zeta.
  assert (Hne : "P-001"%string <> ""%string) by discriminate.
  split.
  - split; [ exact Hne | ]. split; [ reflexivity | ].
    split; [ reflexivity | ].
    exact (proj1 (proj2 (proj2 (proj2 (proj2
             (patient_fetch_failure "P-001"
                (fun R e => Rejected (HttpError 401)) (HttpError 401) _
                Hne eq_refl eq_refl))))) eq_refl).
  - split; [ reflexivity | ]. split; [ reflexivity | ].
    destruct (patient_fetch_failure "P-001"
                (fun R e => Rejected NetworkError) NetworkError _
                Hne eq_refl eq_refl) as (_ & _ & Hr & _ & _ & Hf).
    destruct (Hf eq_refl) as [ Ha Hd ].
    split; [ exact Ha | ]. split; [ exact Hd | exact Hr ].
Defined.

Lemma loading_line_ends_with_the_request_witness :
  let env : oracle request :=
    fun R e => match e in request R return settled R with
               | http_get _ => Fulfilled None
               end in
  ("P-001"%string <> ""%string /\
   loading_line (render "P-001" (st (mount "P-001"))) = true /\
   exists w',
     settle apply 0 env (mount "P-001") = Some w' /\
     loading_line (render "P-001" (st w')) = false /\ pending w' = []) /\
  render "" (st (mount "")) = {| loading_line := true; body := Empty |} /\
  settle apply 0 env (mount "") = None.
Proof.
  cbv zeta.
  assert (Hne : "P-001"%string <> ""%string) by discriminate.
  destruct (loading_line_ends_with_the_request "P-001") as [ H _ ].
  destruct (H Hne) as [ H1 H2 ].
  destruct (loading_line_ends_with_the_request "") as [ _ H' ].
  destruct (H' eq_refl) as [ H3 H4 ].
  split.
  - split; [ exact Hne | ]. split; [ exact H1 | ].
    eexists. split; [ reflexivity | ].
    exact (H2 0 _ _ eq_refl).
  - split; [ exact H3 | ]. exact (H4 0 _).
Defined.

End WoundCareAIFacts.
